(** * ESP32-CAM licence plate recognition: the sketch's pipeline logic

    A shallow embedding of the Arduino sketch (the file that defines
    [setup], [loop], [ctcBeamSearchDecode] and [preprocessImage]) and the
    properties of it that the design document states.

    Conventions of the embedding:
    - a C [int] is a [Z]; where the sketch multiplies pixel coordinates
      by frame dimensions ([preprocessImage]) the 32-bit wrap-around is
      written out ([int_mul], [int_add]); unsigned arithmetic
      ([uint32_t], [size_t]) has its wrap-around written out with
      [mod 2^32];
    - a C [float] or [double] is a [spec_float] of the Standard Library
      ([SpecFloat]), at the binary32 or binary64 format; comparisons are
      IEEE comparisons, so a NaN compares false with everything;
    - a [float*] or [uint8_t*] buffer is a list, and a read outside of it
      (undefined behaviour in C++) is [None];
    - [Serial] output and calls to the camera driver are events of a trace. *)

From Stdlib Require Import ZArith List String Ascii Bool Lia Sorted SpecFloat.
Import ListNotations.
Open Scope Z_scope.

(** ** Option as the monad of possibly undefined reads *)

Definition obind {A B : Type} (m : option A) (k : A -> option B) : option B :=
  match m with
  | Some a => k a
  | None => None
  end.

Declare Scope ub_scope.
Delimit Scope ub_scope with ub.
Notation "'do' x <- m ; k" := (obind m (fun x => k))
  (at level 10, x pattern, m at level 100, k at level 200) : ub_scope.
Open Scope ub_scope.

(** ** Binary32 floating point *)

Definition float : Type := spec_float.

Module Float32.

Definition prec : Z := 24.
Definition emax : Z := 128.

(** [a > b] and [a < b] of C on two floats. *)
Definition gt (a b : float) : bool := SFltb b a.
Definition lt (a b : float) : bool := SFltb a b.
Definition le (a b : float) : bool := SFleb a b.
Definition eq (a b : float) : bool := SFeqb a b.

Definition is_nan (a : float) : bool :=
  match a with
  | S754_nan => true
  | _ => false
  end.

(** The literal [0.0f]. *)
Definition zero : float := S754_zero false.

(** Conversion of an integer to [float], rounding to nearest even. *)
Definition of_Z (n : Z) : float := binary_normalize prec emax n 0 false.

Definition div (a b : float) : float := SFdiv prec emax a b.
Definition mul (a b : float) : float := SFmul prec emax a b.

Definition one : float := of_Z 1.

End Float32.

(** ** Binary64 floating point *)

Definition double : Type := spec_float.

Module Float64.

Definition prec : Z := 53.
Definition emax : Z := 1024.

Definition lt (a b : double) : bool := SFltb a b.
Definition of_Z (n : Z) : double := binary_normalize prec emax n 0 false.
Definition mul (a b : double) : double := SFmul prec emax a b.
Definition div (a b : double) : double := SFdiv prec emax a b.

(** A decimal literal such as [0.95], given as the fraction [95/100]:
    the double nearest to it, which the correctly rounded quotient of two
    exactly represented integers is. *)
Definition literal (num den : Z) : double := div (of_Z num) (of_Z den).

(** The promotion of a [float] to [double]: the same number, written
    with a 53-bit mantissa. *)
Definition of_float (a : float) : double :=
  match a with
  | S754_finite s m e => binary_normalize prec emax (cond_Zopp s (Zpos m)) e s
  | _ => a
  end.

(** The narrowing of a [double] to [float], rounding to nearest even. *)
Definition to_float (a : double) : float :=
  match a with
  | S754_finite s m e =>
      binary_normalize Float32.prec Float32.emax (cond_Zopp s (Zpos m)) e s
  | _ => a
  end.

End Float64.

(** ** for loops *)

(** The values taken by [k] in [for (int k = lo; k < hi; k++)]. *)
Definition range (lo hi : Z) : list Z :=
  map (fun k => lo + Z.of_nat k) (seq 0 (Z.to_nat (hi - lo))).

(** ** The sequence decoder *)

(** [const char* CHARACTERS] and [const int NUM_CHARACTERS]. *)
Definition CHARACTERS : string := "0123456789ABCDEFGHIJKLMNOPQRSTUVWXYZ".
Definition NUM_CHARACTERS : Z := 36.

(** [CHARACTERS[k]]: the literal has 36 characters and its terminating NUL
    at index 36; any other index is outside the array. *)
Definition CHARACTERS_at (k : Z) : option ascii :=
  if k <? 0 then None
  else if k =? Z.of_nat (String.length CHARACTERS) then Some zero
  else String.get (Z.to_nat k) CHARACTERS.

(** [predictions[idx]]. *)
Definition read (predictions : list float) (idx : Z) : option float :=
  if idx <? 0 then None else nth_error predictions (Z.to_nat idx).

(** The inner loop of the decoder, over the remaining values [cs] of [c]:
<<
    for (int c = 1; c < num_classes; c++) {
        if (predictions[i * num_classes + c] > max_prob) {
            max_prob = predictions[i * num_classes + c];
            max_class = c;
        }
    }
>> *)
Fixpoint argmax_scan (predictions : list float) (i num_classes : Z)
    (cs : list Z) (max_class : Z) (max_prob : float) : option (Z * float) :=
  match cs with
  | [] => Some (max_class, max_prob)
  | c :: cs' =>
      do p <- read predictions (i * num_classes + c);
      if Float32.gt p max_prob
      then argmax_scan predictions i num_classes cs' c p
      else argmax_scan predictions i num_classes cs' max_class max_prob
  end.

(** "Find max probability class at this position": the first half of the
    body of the outer loop, whose value is [max_class]. *)
Definition argmax_row (predictions : list float) (num_classes i : Z) : option Z :=
  do max_prob <- read predictions (i * num_classes);
  do r <- argmax_scan predictions i num_classes (range 1 num_classes) 0 max_prob;
  Some (fst r).

(** The second half of the body, on the pair [(result, prev_class)]:
<<
    if (max_class != 0 && max_class != prev_class) {
        if (max_class - 1 < NUM_CHARACTERS) {
            result += CHARACTERS[max_class - 1];
        }
    }
    prev_class = max_class;
>> *)
Definition ctc_step (st : string * Z) (max_class : Z) : option (string * Z) :=
  let '(result, prev_class) := st in
  do result' <-
    (if negb (max_class =? 0) && negb (max_class =? prev_class)
     then if max_class - 1 <? NUM_CHARACTERS
          then do ch <- CHARACTERS_at (max_class - 1);
               Some (result ++ String ch EmptyString)%string
          else Some result
     else Some result);
  Some (result', max_class).

(** The outer loop over the remaining timesteps. *)
Fixpoint decode_loop (predictions : list float) (num_classes : Z)
    (steps : list Z) (st : string * Z) : option (string * Z) :=
  match steps with
  | [] => Some st
  | i :: steps' =>
      do max_class <- argmax_row predictions num_classes i;
      do st' <- ctc_step st max_class;
      decode_loop predictions num_classes steps' st'
  end.

(** [String ctcBeamSearchDecode(float* predictions, int seq_len, int num_classes)] *)
Definition ctcBeamSearchDecode (predictions : list float) (seq_len num_classes : Z)
    : option string :=
  do st <- decode_loop predictions num_classes (range 0 seq_len) (EmptyString, -1);
  Some (fst st).


(** ** The decoder and its two globals *)

(** [CHARACTERS] is a global pointer to a string literal (the pointer
    itself is not [const]) and [NUM_CHARACTERS] a global constant: the
    decoder has no parameter for them.  What the body of the decoder does
    for other values of the two globals is given by the same body with
    the globals as parameters. *)

(** [table[k]] for a string literal [table]. *)
Definition table_at (table : string) (k : Z) : option ascii :=
  if k <? 0 then None
  else if k =? Z.of_nat (String.length table) then Some zero
  else String.get (Z.to_nat k) table.

Definition ctc_step_with (table : string) (num_characters : Z)
    (st : string * Z) (max_class : Z) : option (string * Z) :=
  let '(result, prev_class) := st in
  do result' <-
    (if negb (max_class =? 0) && negb (max_class =? prev_class)
     then if max_class - 1 <? num_characters
          then do ch <- table_at table (max_class - 1);
               Some (result ++ String ch EmptyString)%string
          else Some result
     else Some result);
  Some (result', max_class).

Fixpoint decode_loop_with (table : string) (num_characters : Z)
    (predictions : list float) (num_classes : Z)
    (steps : list Z) (st : string * Z) : option (string * Z) :=
  match steps with
  | [] => Some st
  | i :: steps' =>
      do max_class <- argmax_row predictions num_classes i;
      do st' <- ctc_step_with table num_characters st max_class;
      decode_loop_with table num_characters predictions num_classes steps' st'
  end.

Definition ctcBeamSearchDecode_with (table : string) (num_characters : Z)
    (predictions : list float) (seq_len num_classes : Z) : option string :=
  do st <- decode_loop_with table num_characters predictions num_classes
             (range 0 seq_len) (EmptyString, -1);
  Some (fst st).

(** ** The camera frame buffer *)

(** The fields of the driver's [camera_fb_t] that the sketch reads:
    [uint8_t* buf] and the [size_t] fields [len], [width] and [height]. *)
Record camera_fb_t : Type := {
  buf : list Byte.byte;
  len : Z;
  width : Z;
  height : Z
}.

(** The conversions between [size_t] (32 bits on the ESP32) and [int]. *)
Definition to_size_t (n : Z) : Z := n mod 2 ^ 32.
Definition to_int (n : Z) : Z := (n + 2 ^ 31) mod 2 ^ 32 - 2 ^ 31.

(** ** Preprocessing: resize and normalise *)

Definition OCR_INPUT_WIDTH : Z := 128.
Definition OCR_INPUT_HEIGHT : Z := 64.

(** [src_data[src_idx]] *)
Definition read_byte (src_data : list Byte.byte) (idx : Z) : option Z :=
  if idx <? 0 then None
  else option_map (fun b => Z.of_N (Byte.to_N b)) (nth_error src_data (Z.to_nat idx)).

(** [input_buffer[idx] = v] *)
Definition write (input_buffer : list float) (idx : Z) (v : float) : option (list float) :=
  if idx <? 0 then None
  else if idx <? Z.of_nat (List.length input_buffer)
  then Some (firstn (Z.to_nat idx) input_buffer ++ v :: skipn (S (Z.to_nat idx)) input_buffer)
  else None.

(** The product and the sum of two [int]: 32 bits, two's complement.  The
    C++ standard leaves a signed overflow undefined; the code generated
    for the ESP32 wraps, and that is what is written out here. *)
Definition int_mul (a b : Z) : Z := to_int (a * b).
Definition int_add (a b : Z) : Z := to_int (a + b).

(** [src_idx] for the output pixel [(x, y)]; [src_width] and [src_height]
    are the [int] that the [size_t] fields convert to, and the division
    of C truncates. *)
Definition src_index (fb : camera_fb_t) (x y : Z) : Z :=
  let src_width := to_int (width fb) in
  let src_height := to_int (height fb) in
  let src_x := Z.quot (int_mul x src_width) OCR_INPUT_WIDTH in
  let src_y := Z.quot (int_mul y src_height) OCR_INPUT_HEIGHT in
  int_add (int_mul src_y src_width) src_x.

(** The value stored for the output pixel [(x, y)]: the body of the inner
    loop without the store.  In [src_idx < fb->len] the [int] is converted
    to [size_t]. *)
Definition sample (fb : camera_fb_t) (x y : Z) : option float :=
  let src_idx := src_index fb x y in
  if to_size_t src_idx <? len fb
  then do b <- read_byte (buf fb) src_idx;
       Some (Float32.div (Float32.of_Z b) (Float32.of_Z 255))
  else Some Float32.zero.

(** [for (int x = 0; x < OCR_INPUT_WIDTH; x++)] over the remaining [xs]. *)
Fixpoint preprocess_row (fb : camera_fb_t) (y : Z) (xs : list Z)
    (input_buffer : list float) : option (list float) :=
  match xs with
  | [] => Some input_buffer
  | x :: xs' =>
      do v <- sample fb x y;
      do input_buffer' <- write input_buffer (y * OCR_INPUT_WIDTH + x) v;
      preprocess_row fb y xs' input_buffer'
  end.

(** [for (int y = 0; y < OCR_INPUT_HEIGHT; y++)] over the remaining [ys]. *)
Fixpoint preprocess_rows (fb : camera_fb_t) (ys : list Z)
    (input_buffer : list float) : option (list float) :=
  match ys with
  | [] => Some input_buffer
  | y :: ys' =>
      do input_buffer' <- preprocess_row fb y (range 0 OCR_INPUT_WIDTH) input_buffer;
      preprocess_rows fb ys' input_buffer'
  end.

(** [void preprocessImage(camera_fb_t *fb, float *input_buffer)], as the
    content of [input_buffer] when it returns. *)
Definition preprocessImage (fb : camera_fb_t) (input_buffer : list float)
    : option (list float) :=
  preprocess_rows fb (range 0 OCR_INPUT_HEIGHT) input_buffer.

(** ** The stages' results *)

Record BoundingBox : Type := {
  x1 : float; y1 : float; x2 : float; y2 : float;
  confidence : float
}.

(** [float x[4], y[4]] *)
Record Polygon : Type := {
  poly_x : list float;
  poly_y : list float
}.

(** ** Serial output and driver calls *)

Inductive model : Type := Detection | PolygonModel | Ocr.

(** The messages that the sketch prints on [Serial]: one constructor per
    message (consecutive print statements of fixed text count as one); the
    arguments are the values that a [printf] formats. *)
Inductive message : Type :=
| MsgTitle
| MsgCameraInitFailed (err : Z)
| MsgCameraInitialized
| MsgInitializingModels
| MsgLoading (m : model)
| MsgSchemaMismatch (m : model)
| MsgAllocationFailed (m : model)
| MsgLoaded (m : model) (arena_used_bytes : Z)
| MsgAllModelsReady
| MsgStage (m : model)
| MsgPlateDetectedAt (bx1 by1 bx2 by2 : float)
| MsgBoxConfidence (c : float)
| MsgCornerPoints
| MsgRecognized (text : string)
| MsgCaptureFailed
| MsgBanner
| MsgImageCaptured (w h l : Z)
| MsgNoPlate
| MsgComplete
| MsgLicensePlate (text : string)
| MsgTimingBreakdown
| MsgStageTime (m : model) (ms : Z)
| MsgTotalTime (ms : Z)
| MsgConfidence (percent : double)
| MsgFreeHeap (bytes : Z)
| MsgEnd.

(** What a run does: the prints of [setup] and [loop] themselves, the calls
    to the libraries, and the calls of the stage functions, each with what
    the stage printed. *)
Inductive event : Type :=
| SerialPrint (m : message)
| Delay (ms : Z)
| SerialBegin (baud : Z)
| CameraInit
| GetModel (m : model)
| AllocateTensors (m : model)
| BindTensors (m : model)
| FbGet
| FbReturn (fb : camera_fb_t)
| Call (m : model) (printed : list message).

(** ** The state of a run *)

(** What a run has done so far, and how many times it has read the clock. *)
Record world : Type := {
  trace : list event;
  millis_calls : nat
}.

Definition M (A : Type) : Type := world -> A * world.

Definition ret {A : Type} (a : A) : M A := fun w => (a, w).

Definition bind {A B : Type} (m : M A) (k : A -> M B) : M B :=
  fun w => let '(a, w') := m w in k a w'.

Declare Scope run_scope.
Delimit Scope run_scope with run.
Notation "x <- m ;; k" := (bind m (fun x => k))
  (at level 61, m at next level, right associativity) : run_scope.
Notation "m ;; k" := (bind m (fun _ => k))
  (at level 61, right associativity) : run_scope.

Definition emit (e : event) : M unit :=
  fun w => (tt, {| trace := trace w ++ [e]; millis_calls := millis_calls w |}).

Definition print (m : message) : M unit := emit (SerialPrint m).
Definition delay (ms : Z) : M unit := emit (Delay ms).

(** [millis()]: the next reading of the clock, a [uint32_t]. *)
Definition millis (clock : nat -> Z) : M Z :=
  fun w => (to_size_t (clock (millis_calls w)),
            {| trace := trace w; millis_calls := S (millis_calls w) |}).

(** The difference of two [uint32_t]. *)
Definition sub32 (a b : Z) : Z := (a - b) mod 2 ^ 32.

Definition start : world := {| trace := []; millis_calls := 0 |}.

(** The events of a run from the start. *)
Definition run {A : Type} (m : M A) : list event := trace (snd (m start)).

(** ** Initialisation *)

(** What the libraries answer during [setup]: the [esp_err_t] of
    [esp_camera_init], the [version()] of each model asset, whether
    [AllocateTensors()] of each interpreter is [kTfLiteOk], and its
    [arena_used_bytes()]. *)
Record setup_env : Type := {
  camera_init_result : Z;
  model_version : model -> Z;
  allocate_ok : model -> bool;
  arena_used_bytes : model -> Z
}.

Definition ESP_OK : Z := 0.

Open Scope run_scope.

(** [void setup()].  [TFLITE_SCHEMA_VERSION] is a macro of the TensorFlow
    Lite headers.  A [return] inside an [if] ends the function: what
    follows the [if] in the source is the [else] branch here. *)
Definition setup (TFLITE_SCHEMA_VERSION : Z) (env : setup_env) : M unit :=
  emit (SerialBegin 115200) ;;
  delay 3000 ;;
  print MsgTitle ;;
  emit CameraInit ;;
  if negb (camera_init_result env =? ESP_OK) then
    print (MsgCameraInitFailed (camera_init_result env))
  else
    print MsgCameraInitialized ;;
    print MsgInitializingModels ;;
    (* Stage 1: Detection Model *)
    print (MsgLoading Detection) ;;
    emit (GetModel Detection) ;;
    if negb (model_version env Detection =? TFLITE_SCHEMA_VERSION) then
      print (MsgSchemaMismatch Detection)
    else
      emit (AllocateTensors Detection) ;;
      if negb (allocate_ok env Detection) then
        print (MsgAllocationFailed Detection)
      else
        emit (BindTensors Detection) ;;
        print (MsgLoaded Detection (arena_used_bytes env Detection)) ;;
        (* Stage 2: Polygon Model *)
        print (MsgLoading PolygonModel) ;;
        emit (GetModel PolygonModel) ;;
        emit (AllocateTensors PolygonModel) ;;
        if negb (allocate_ok env PolygonModel) then
          print (MsgAllocationFailed PolygonModel)
        else
          emit (BindTensors PolygonModel) ;;
          print (MsgLoaded PolygonModel (arena_used_bytes env PolygonModel)) ;;
          (* Stage 3: OCR Model *)
          print (MsgLoading Ocr) ;;
          emit (GetModel Ocr) ;;
          emit (AllocateTensors Ocr) ;;
          if negb (allocate_ok env Ocr) then
            print (MsgAllocationFailed Ocr)
          else
            emit (BindTensors Ocr) ;;
            print (MsgLoaded Ocr (arena_used_bytes env Ocr)) ;;
            print MsgAllModelsReady.

(** ** The three stages *)

(** A stage function of the sketch prints and returns a value. *)
Definition stage (A : Type) : Type := list message * A.

(** [BoundingBox detectPlate(camera_fb_t *fb)], the placeholder of the
    sketch: [fb->width * 0.3] is a product of doubles, narrowed by the
    assignment to a [float] field. *)
Definition detectPlate (fb : camera_fb_t) : stage BoundingBox :=
  let scaled (n : Z) (num den : Z) :=
    Float64.to_float (Float64.mul (Float64.of_Z n) (Float64.literal num den)) in
  let box := {| x1 := scaled (width fb) 3 10;
                y1 := scaled (height fb) 4 10;
                x2 := scaled (width fb) 7 10;
                y2 := scaled (height fb) 6 10;
                confidence := Float64.to_float (Float64.literal 95 100) |} in
  ([MsgStage Detection;
    MsgPlateDetectedAt (x1 box) (y1 box) (x2 box) (y2 box);
    MsgBoxConfidence (confidence box)], box).

(** [Polygon detectPolygon(camera_fb_t *fb, BoundingBox box)], the
    placeholder of the sketch. *)
Definition detectPolygon (fb : camera_fb_t) (box : BoundingBox) : stage Polygon :=
  ([MsgStage PolygonModel; MsgCornerPoints],
   {| poly_x := [x1 box; x2 box; x2 box; x1 box];
      poly_y := [y1 box; y1 box; y2 box; y2 box] |}).

(** [String recognizeCharacters(camera_fb_t *fb, Polygon poly)], the
    placeholder of the sketch. *)
Definition recognizeCharacters (fb : camera_fb_t) (poly : Polygon) : stage string :=
  let plate_text := "ABC1234"%string in
  ([MsgStage Ocr; MsgRecognized plate_text], plate_text).

(** ** One iteration of the main loop *)

(** What the outside answers during one iteration: the frame that
    [esp_camera_fb_get] returns (or the null pointer), the successive
    readings of [millis()], and [ESP.getFreeHeap()]. *)
Record loop_env : Type := {
  fb_get : option camera_fb_t;
  clock : nat -> Z;
  free_heap : Z
}.

(** A call of a stage function. *)
Definition call {A : Type} (m : model) (r : stage A) : M A :=
  emit (Call m (fst r)) ;; ret (snd r).

(** [plate_box.confidence < 0.5]: the [float] is promoted to [double]. *)
Definition below_threshold (c : float) : bool :=
  Float64.lt (Float64.of_float c) (Float64.literal 1 2).

Section Loop.

(** The sketch's stage functions are placeholders to be replaced by the
    real stages, so the body of [loop] is given for any three of them. *)
Variable stage1 : camera_fb_t -> stage BoundingBox.
Variable stage2 : camera_fb_t -> BoundingBox -> stage Polygon.
Variable stage3 : camera_fb_t -> Polygon -> stage string.

Definition loop_with (env : loop_env) : M unit :=
  emit FbGet ;;
  match fb_get env with
  | None =>
      print MsgCaptureFailed ;;
      delay 1000
  | Some fb =>
      print MsgBanner ;;
      print (MsgImageCaptured (width fb) (height fb) (len fb)) ;;
      total_start <- millis (clock env) ;;
      (* STAGE 1: Detect license plate location *)
      stage1_start <- millis (clock env) ;;
      plate_box <- call Detection (stage1 fb) ;;
      stage1_end <- millis (clock env) ;;
      let stage1_time := sub32 stage1_end stage1_start in
      if below_threshold (confidence plate_box) then
        print MsgNoPlate ;;
        emit (FbReturn fb) ;;
        delay 2000
      else
        (* STAGE 2: Detect polygon corners *)
        stage2_start <- millis (clock env) ;;
        plate_polygon <- call PolygonModel (stage2 fb plate_box) ;;
        stage2_end <- millis (clock env) ;;
        let stage2_time := sub32 stage2_end stage2_start in
        (* STAGE 3: OCR character recognition *)
        stage3_start <- millis (clock env) ;;
        plate_number <- call Ocr (stage3 fb plate_polygon) ;;
        stage3_end <- millis (clock env) ;;
        let stage3_time := sub32 stage3_end stage3_start in
        total_end <- millis (clock env) ;;
        let total_time := sub32 total_end total_start in
        (* RESULTS *)
        print MsgComplete ;;
        print (MsgLicensePlate plate_number) ;;
        print MsgTimingBreakdown ;;
        print (MsgStageTime Detection stage1_time) ;;
        print (MsgStageTime PolygonModel stage2_time) ;;
        print (MsgStageTime Ocr stage3_time) ;;
        print (MsgTotalTime total_time) ;;
        print (MsgConfidence
                 (Float64.of_float
                    (Float32.mul (confidence plate_box) (Float32.of_Z 100)))) ;;
        print (MsgFreeHeap (free_heap env)) ;;
        print MsgEnd ;;
        (* Return frame buffer *)
        emit (FbReturn fb) ;;
        delay 3000
  end.

End Loop.

(** [void loop()] *)
Definition loop : loop_env -> M unit :=
  loop_with detectPlate detectPolygon recognizeCharacters.

Close Scope run_scope.

(** ** Notions used to state the properties *)

(** The argmax class of each of the given timesteps. *)
Fixpoint labels_of (predictions : list float) (num_classes : Z) (steps : list Z)
    : option (list Z) :=
  match steps with
  | [] => Some []
  | i :: steps' =>
      do l <- argmax_row predictions num_classes i;
      do ls <- labels_of predictions num_classes steps';
      Some (l :: ls)
  end.

(** The grid [predictions], read as [length ls] rows of [num_classes]
    columns, has the per-timestep argmax labels [ls]. *)
Definition has_labels (predictions : list float) (num_classes : Z) (ls : list Z) : Prop :=
  labels_of predictions num_classes (range 0 (Z.of_nat (List.length ls))) = Some ls.

(** The blank/repeat rule applied to a sequence of labels. *)
Fixpoint collapse (ls : list Z) (st : string * Z) : option (string * Z) :=
  match ls with
  | [] => Some st
  | l :: ls' => do st' <- ctc_step st l; collapse ls' st'
  end.

(** The [k]-th reading of [millis()] in an iteration, counted from 0. *)
Definition tick (env : loop_env) (k : nat) : Z := to_size_t (clock env k).

(** The frames given back to the driver during a run. *)
Fixpoint fb_returns (t : list event) : list camera_fb_t :=
  match t with
  | [] => []
  | FbReturn fb :: t' => fb :: fb_returns t'
  | _ :: t' => fb_returns t'
  end.

(** The stage functions called during a run. *)
Fixpoint calls (t : list event) : list model :=
  match t with
  | [] => []
  | Call m _ :: t' => m :: calls t'
  | _ :: t' => calls t'
  end.

(** The durations that a run reports. *)
Fixpoint timings (t : list event) : list message :=
  match t with
  | [] => []
  | SerialPrint (MsgStageTime m ms) :: t' => MsgStageTime m ms :: timings t'
  | SerialPrint (MsgTotalTime ms) :: t' => MsgTotalTime ms :: timings t'
  | _ :: t' => timings t'
  end.

(** The schema complaints of a run. *)
Fixpoint mismatches (t : list event) : list model :=
  match t with
  | [] => []
  | SerialPrint (MsgSchemaMismatch m) :: t' => m :: mismatches t'
  | _ :: t' => mismatches t'
  end.

(** A detection stage that reports the confidence [c]: the placeholder of
    the sketch with another value in its [confidence] field. *)
Definition detector (c : float) (fb : camera_fb_t) : stage BoundingBox :=
  let box := snd (detectPlate fb) in
  ([MsgStage Detection;
    MsgPlateDetectedAt (x1 box) (y1 box) (x2 box) (y2 box);
    MsgBoxConfidence c],
   {| x1 := x1 box; y1 := y1 box; x2 := x2 box; y2 := y2 box; confidence := c |}).

(** The floats [0.3f] and [0.95f]. *)
Definition confidence_0_3 : float := Float64.to_float (Float64.literal 3 10).
Definition confidence_0_95 : float := Float64.to_float (Float64.literal 95 100).

(** A greyscale frame of 4 x 2 pixels. *)
Definition small_frame : camera_fb_t :=
  {| buf := [Byte.x00; Byte.x40; Byte.x80; Byte.xff;
             Byte.xff; Byte.x80; Byte.x40; Byte.x00];
     len := 8; width := 4; height := 2 |}.

(** An iteration that gets [small_frame], with a clock that advances by
    ten milliseconds between two readings. *)
Definition example_env : loop_env :=
  {| fb_get := Some small_frame;
     clock := fun k => 1000 + 10 * Z.of_nat k;
     free_heap := 100000 |}.

(** Modelled from the spec: the gate of the detection stage with the
    threshold as a parameter ("if confidence < detectionThreshold ... the
    stage signals not found"); the sketch has no such parameter. *)
Definition gated_out (detectionThreshold : double) (c : float) : bool :=
  Float64.lt (Float64.of_float c) detectionThreshold.

(** A start-up in which the camera and every allocation succeed, and the
    three assets declare the given versions. *)
Definition versions_env (detection polygon ocr : Z) : setup_env :=
  {| camera_init_result := ESP_OK;
     model_version := fun m =>
       match m with
       | Detection => detection
       | PolygonModel => polygon
       | Ocr => ocr
       end;
     allocate_ok := fun _ => true;
     arena_used_bytes := fun _ => 40960 |}.

(** The frames that the driver hands out: [len] is the size of [buf],
    and, as for every object of a 32-bit target, that size is below 2^31
    ([PTRDIFF_MAX]).  The dimensions are not constrained. *)
Definition fb_valid (fb : camera_fb_t) : Prop :=
  len fb = Z.of_nat (List.length (buf fb)) /\
  len fb < 2 ^ 31.

(** The index of the output pixel [(x, y)] in [input_buffer]. *)
Definition pixel_index (x y : Z) : Z := y * OCR_INPUT_WIDTH + x.

(** A frame whose buffer is shorter than its dimensions announce, as that
    of a compressed frame is: four bytes, all of them white. *)
Definition short_frame : camera_fb_t :=
  {| buf := [Byte.xff; Byte.xff; Byte.xff; Byte.xff]; len := 4;
     width := 320; height := 240 |}.

(** An output buffer of 128 x 64 floats, all of them 1.0. *)
Definition white_buffer : list float :=
  repeat Float32.one (Z.to_nat (OCR_INPUT_WIDTH * OCR_INPUT_HEIGHT)).

(** [predictions[i * num_classes + c]], the probability of class [c] at
    timestep [i]. *)
Definition prob (predictions : list float) (i num_classes c : Z) : option float :=
  read predictions (i * num_classes + c).

(** The classes that the scan of one row looks at. *)
Definition scanned (num_classes c : Z) : Prop := c = 0 \/ 1 <= c < num_classes.

(** What the inner loop guarantees, given the class [m0] and probability
    [p0] it starts from, about the [m] and [p] it ends with. *)
Record scan_post (predictions : list float) (i num_classes : Z)
    (cs : list Z) (m0 : Z) (p0 : float) (m : Z) (p : float) : Prop := {
  scan_choice :
    (m = m0 /\ p = p0) \/
    (In m cs /\ prob predictions i num_classes m = Some p /\ Float32.gt p p0 = true);
  scan_start : Float32.gt p0 p = false;
  scan_max : forall c pc,
    In c cs -> prob predictions i num_classes c = Some pc -> Float32.gt pc p = false;
  scan_first : forall c pc,
    In c cs -> c < m -> prob predictions i num_classes c = Some pc ->
    Float32.eq pc p = false
}.

(** The class [m] is a maximum of row [i], and the first one: no class of
    the row has a greater probability, and every class whose probability
    equals that of [m] has an index at least [m]. *)
Definition first_maximum (predictions : list float) (num_classes i m : Z) : Prop :=
  scanned num_classes m /\
  exists pm, prob predictions i num_classes m = Some pm /\
    (forall c pc, scanned num_classes c -> prob predictions i num_classes c = Some pc ->
       Float32.gt pc pm = false) /\
    (forall c pc, scanned num_classes c -> prob predictions i num_classes c = Some pc ->
       Float32.eq pc pm = true -> m <= c).

(** The blank/repeat rule over any table. *)
Fixpoint collapse_with (table : string) (num_characters : Z)
    (ls : list Z) (st : string * Z) : option (string * Z) :=
  match ls with
  | [] => Some st
  | l :: ls' =>
      do st' <- ctc_step_with table num_characters st l;
      collapse_with table num_characters ls' st'
  end.

(** A table of 36 characters that starts with the letters. *)
Definition letters_first : string := "ABCDEFGHIJKLMNOPQRSTUVWXYZ0123456789".

(** A grid with the given labels: probability one for the label of each
    row and zero elsewhere. *)
Definition onehot (num_classes c : Z) : list float :=
  map (fun k => if k =? c then Float32.one else Float32.zero) (range 0 num_classes).

Definition grid_of (num_classes : Z) (ls : list Z) : list float :=
  flat_map (onehot num_classes) ls.

(** The class of a character: one more than its first position in the
    table that starts at position [k]. *)
Fixpoint class_from (k : Z) (table : string) (ch : ascii) : option Z :=
  match table with
  | EmptyString => None
  | String a table' =>
      if Ascii.eqb a ch then Some (k + 1) else class_from (k + 1) table' ch
  end.

(** The re-encoding of a string as one class per character. *)
Fixpoint encode (s : string) : option (list Z) :=
  match s with
  | EmptyString => Some []
  | String ch s' =>
      do c <- class_from 0 CHARACTERS ch;
      do cs <- encode s';
      Some (c :: cs)
  end.

Fixpoint no_adjacent_repeat (ls : list Z) : bool :=
  match ls with
  | a :: ((b :: _) as ls') => negb (a =? b) && no_adjacent_repeat ls'
  | _ => true
  end.

(** ** Notions used to state further properties *)

(** Every timestep twice. *)
Fixpoint stutter (ls : list Z) : list Z :=
  match ls with
  | [] => []
  | l :: ls' => l :: l :: stutter ls'
  end.

(** The character [ch] is the table's entry of a class that a grid of
    [num_classes] columns can select. *)
Definition emitted_by (num_classes : Z) (ch : ascii) : Prop :=
  exists c, 1 <= c < num_classes /\ c <= NUM_CHARACTERS /\ CHARACTERS_at (c - 1) = Some ch.

(** The value stored for a source byte: [src_data[src_idx] / 255.0f]. *)
Definition normalised (b : Z) : float := Float32.div (Float32.of_Z b) (Float32.of_Z 255).

(** The messages by which [setup] reports a failure. *)
Definition is_failure (m : message) : bool :=
  match m with
  | MsgCameraInitFailed _ | MsgSchemaMismatch _ | MsgAllocationFailed _ => true
  | _ => false
  end.

Fixpoint failures (t : list event) : list message :=
  match t with
  | [] => []
  | SerialPrint m :: t' => if is_failure m then m :: failures t' else failures t'
  | _ :: t' => failures t'
  end.

(** The assets that a run of [setup] fetches, in the order of the run. *)
Fixpoint fetched (t : list event) : list model :=
  match t with
  | [] => []
  | GetModel m :: t' => m :: fetched t'
  | _ :: t' => fetched t'
  end.

(** A greyscale frame of the size of the OCR input, 128 x 64, all grey. *)
Definition full_frame : camera_fb_t :=
  {| buf := repeat Byte.x80 (Z.to_nat (OCR_INPUT_WIDTH * OCR_INPUT_HEIGHT));
     len := OCR_INPUT_WIDTH * OCR_INPUT_HEIGHT;
     width := OCR_INPUT_WIDTH; height := OCR_INPUT_HEIGHT |}.


(** A start-up whose camera fails with [ESP_FAIL]. *)
Definition camera_failure_env : setup_env :=
  {| camera_init_result := -1;
     model_version := fun _ => 3;
     allocate_ok := fun _ => true;
     arena_used_bytes := fun _ => 40960 |}.

(** The labels without their adjacent repeats, [prev] being the label
    before the first. *)
Fixpoint merge_repeats (prev : Z) (ls : list Z) : list Z :=
  match ls with
  | [] => []
  | l :: ls' => if l =? prev then merge_repeats l ls' else l :: merge_repeats l ls'
  end.

(** The classes that have a character: not the blank, and in the table. *)
Definition has_character (c : Z) : bool :=
  negb (c =? 0) && (c - 1 <? NUM_CHARACTERS).

Definition character_of (c : Z) : ascii :=
  match CHARACTERS_at (c - 1) with
  | Some ch => ch
  | None => zero
  end.

(** The usual reading of a greedy CTC decoding: merge the repeats, then
    drop the blanks (and the classes without a character), then look the
    classes up. *)
Definition merge_then_drop (ls : list Z) : string :=
  string_of_list_ascii
    (map character_of (filter has_character (merge_repeats (-1) ls))).

(** The float [0.5f]. *)
Definition confidence_0_5 : float := Float64.to_float (Float64.literal 1 2).

(** The grids [predictions] and [predictions'] hold the same floats in
    their first [n] cells. *)
Definition same_cells (n : Z) (predictions predictions' : list float) : Prop :=
  forall idx, 0 <= idx < n -> read predictions' idx = read predictions idx.

(** None of the first [n] cells of the grid is a NaN. *)
Definition nan_free (n : Z) (predictions : list float) : Prop :=
  forall idx v, 0 <= idx < n -> read predictions idx = Some v ->
    Float32.is_nan v = false.

(** A grid of two timesteps and three classes with a tie in each row:
    between the classes 1 and 2 in the first, between the blank and the
    class 1 in the second. *)
Definition tie_grid : list float :=
  [Float32.zero; Float32.one; Float32.one;
   Float32.one; Float32.one; Float32.zero].

(** * Properties *)

(** ** The order of floats *)

Section FloatOrder.

Lemma compare_cont_Eq (p q : positive) : Pos.compare_cont Eq p q = Pos.compare p q.
Proof. reflexivity. Qed.

Ltac order_cases :=
  repeat match goal with
  | |- context [Z.compare ?a ?b] => destruct (Z.compare_spec a b)
  | H : context [Z.compare ?a ?b] |- _ => destruct (Z.compare_spec a b)
  | |- context [Pos.compare_cont Eq ?a ?b] =>
      rewrite (compare_cont_Eq a b); destruct (Pos.compare_spec a b)
  | H : context [Pos.compare_cont Eq ?a ?b] |- _ =>
      rewrite (compare_cont_Eq a b) in H; destruct (Pos.compare_spec a b)
  end;
  cbn [CompOpp] in *; subst; try discriminate; try reflexivity; try lia.

Lemma SFltb_trans (a b c : float) :
  SFltb a b = true -> SFltb b c = true -> SFltb a c = true.
Proof.
  unfold SFltb.
  destruct a as [sa|sa| |sa ma ea], b as [sb|sb| |sb mb eb], c as [sc|sc| |sc mc ec];
    simpl; try discriminate; try reflexivity;
    repeat match goal with s : bool |- _ => destruct s end;
    simpl; try discriminate; try reflexivity;
    intros Hab Hbc; order_cases.
Qed.

Lemma SFeqb_ltb_compat (a b c : float) :
  SFeqb a b = true -> SFltb c b = true -> SFltb c a = true.
Proof.
  unfold SFltb, SFeqb.
  destruct a as [sa|sa| |sa ma ea], b as [sb|sb| |sb mb eb], c as [sc|sc| |sc mc ec];
    simpl; try discriminate; try reflexivity;
    repeat match goal with s : bool |- _ => destruct s end;
    simpl; try discriminate; try reflexivity;
    intros Hab Hbc; order_cases.
Qed.

(** Without a NaN, "not greater" is "less or equal". *)
Lemma SFleb_of_not_ltb (a b : float) :
  Float32.is_nan a = false -> Float32.is_nan b = false ->
  SFltb b a = false -> SFleb a b = true.
Proof.
  unfold SFltb, SFleb.
  destruct a as [sa|sa| |sa ma ea], b as [sb|sb| |sb mb eb];
    simpl; try discriminate; try reflexivity;
    repeat match goal with s : bool |- _ => destruct s end;
    simpl; try discriminate; try reflexivity;
    intros _ _ H; order_cases.
Qed.

Lemma SFltb_of_leb_neq (a b : float) :
  SFleb a b = true -> SFeqb a b = false -> SFltb a b = true.
Proof.
  unfold SFltb, SFleb, SFeqb.
  destruct (SFcompare a b) as [[ | | ]|]; congruence.
Qed.

Lemma SFltb_irrefl (a : float) : SFltb a a = false.
Proof.
  unfold SFltb.
  destruct a as [sa|sa| |sa ma ea]; simpl; try reflexivity;
    destruct sa; simpl; try reflexivity;
    rewrite Z.compare_refl, compare_cont_Eq, Pos.compare_refl; reflexivity.
Qed.

Lemma SFltb_not_eqb (a b : float) : SFltb a b = true -> SFeqb b a = false.
Proof.
  intros Hlt.
  destruct (SFeqb b a) eqn:Heq; [|reflexivity].
  pose proof (SFeqb_ltb_compat b a a Heq) as H.
  rewrite SFltb_irrefl in H. 
  assert (SFltb a b = false) as Hf; [|congruence].
  clear H Hlt. revert Heq. unfold SFltb, SFeqb.
  destruct a as [sa|sa| |sa ma ea], b as [sb|sb| |sb mb eb];
    simpl; try discriminate; try reflexivity;
    repeat match goal with s : bool |- _ => destruct s end;
    simpl; try discriminate; try reflexivity;
    intros H; order_cases.
Qed.

End FloatOrder.

(** ** Ranges *)

Lemma range_length (lo hi : Z) : List.length (range lo hi) = Z.to_nat (hi - lo).
Proof. unfold range. rewrite length_map, length_seq. reflexivity. Qed.

Lemma In_range (lo hi c : Z) : In c (range lo hi) <-> lo <= c < hi.
Proof.
  unfold range. rewrite in_map_iff. split.
  - intros [k [<- Hk]]. apply in_seq in Hk. lia.
  - intros H. exists (Z.to_nat (c - lo)). split; [lia|]. apply in_seq. lia.
Qed.

Lemma range_cons (lo hi : Z) : lo < hi -> range lo hi = lo :: range (lo + 1) hi.
Proof.
  intros H. unfold range.
  replace (Z.to_nat (hi - lo)) with (S (Z.to_nat (hi - (lo + 1)))) by lia.
  cbn [seq map]. f_equal; [lia|].
  rewrite <- seq_shift, map_map. apply map_ext. intros k. lia.
Qed.

Lemma range_nil (lo hi : Z) : hi <= lo -> range lo hi = [].
Proof.
  intros H. unfold range. replace (Z.to_nat (hi - lo)) with 0%nat by lia. reflexivity.
Qed.

Lemma range_sorted (m0 lo hi : Z) : m0 < lo -> StronglySorted Z.lt (m0 :: range lo hi).
Proof.
  remember (Z.to_nat (hi - lo)) as n eqn:Hn. revert m0 lo Hn.
  induction n as [|n IH]; intros m0 lo Hn Hlt.
  - rewrite range_nil by lia. repeat constructor.
  - rewrite range_cons by lia. constructor.
    + apply IH; lia.
    + constructor; [exact Hlt|].
      apply Forall_forall. intros c Hc. apply In_range in Hc. lia.
Qed.

Lemma NoDup_range (lo hi : Z) : NoDup (range lo hi).
Proof.
  pose proof (range_sorted (lo - 1) lo hi ltac:(lia)) as H.
  inversion H as [|? ? Hs _]; subst. clear H.
  induction Hs as [|a l _ IH Hall]; constructor; [|exact IH].
  intros Hin. rewrite Forall_forall in Hall. specialize (Hall a Hin). lia.
Qed.

(** ** The argmax of a row *)

Section Argmax.

Variable predictions : list float.
Variables i num_classes : Z.

Lemma argmax_scan_post (cs : list Z) :
  forall m0 p0 m p,
    StronglySorted Z.lt (m0 :: cs) ->
    argmax_scan predictions i num_classes cs m0 p0 = Some (m, p) ->
    scan_post predictions i num_classes cs m0 p0 m p.
Proof.
  unfold Float32.gt, Float32.eq.
  induction cs as [|c cs IH]; intros m0 p0 m p Hs H; cbn [argmax_scan] in H.
  - injection H as <- <-. split; unfold Float32.gt, Float32.eq.
    + left. split; reflexivity.
    + apply SFltb_irrefl.
    + intros c pc [].
    + intros c pc [].
  - inversion Hs as [|? ? Hs' Hall]; subst.
    inversion Hs' as [|? ? Hs'' Hall']; subst.
    inversion Hall as [|? ? Hm0c Hall'']; subst.
    change (read predictions (i * num_classes + c))
      with (prob predictions i num_classes c) in H.
    destruct (prob predictions i num_classes c) as [pc|] eqn:Hpc; [|discriminate].
    cbn [obind] in H. unfold Float32.gt in H.
    destruct (SFltb p0 pc) eqn:Hgt.
    + (* the class [c] becomes the maximum *)
      destruct (IH c pc m p Hs' H) as [Hch Hst Hmax Hfirst].
      unfold Float32.gt, Float32.eq in *.
      assert (SFltb p0 p = true) as Hp0p.
      { destruct Hch as [[-> ->]|[_ [_ Hpp]]]; [exact Hgt|].
        exact (SFltb_trans _ _ _ Hgt Hpp). }
      split; unfold Float32.gt, Float32.eq.
      * right. destruct Hch as [[-> ->]|[Hin [Hr Hpp]]].
        -- split; [left; reflexivity|]. split; assumption.
        -- split; [right; exact Hin|]. split; assumption.
      * destruct (SFltb p p0) eqn:E; [|reflexivity].
        rewrite (SFltb_trans _ _ _ E Hgt) in Hst. discriminate.
      * intros c' pc' [<-|Hin] Hr.
        -- rewrite Hpc in Hr. injection Hr as <-. exact Hst.
        -- exact (Hmax c' pc' Hin Hr).
      * intros c' pc' [<-|Hin] Hlt Hr.
        -- rewrite Hpc in Hr. injection Hr as <-.
           destruct Hch as [[-> _]|[_ [_ Hpp]]]; [lia|].
           destruct (SFeqb pc p) eqn:E; [|reflexivity].
           pose proof (SFltb_not_eqb _ _ Hpp) as Hne.
           destruct (SFeqb p pc) eqn:E'; [discriminate|].
           pose proof (SFeqb_ltb_compat pc p pc E Hpp) as Habs.
           rewrite SFltb_irrefl in Habs. discriminate.
        -- exact (Hfirst c' pc' Hin Hlt Hr).
    + (* the maximum stays *)
      assert (StronglySorted Z.lt (m0 :: cs)) as Hs0.
      { constructor; assumption. }
      destruct (IH m0 p0 m p Hs0 H) as [Hch Hst Hmax Hfirst].
      unfold Float32.gt, Float32.eq in *.
      split; unfold Float32.gt, Float32.eq.
      * destruct Hch as [Heq|[Hin Hrest]]; [left; exact Heq|].
        right. split; [right; exact Hin|exact Hrest].
      * exact Hst.
      * intros c' pc' [<-|Hin] Hr.
        -- rewrite Hpc in Hr. injection Hr as <-.
           destruct (SFltb p pc) eqn:E; [|reflexivity].
           destruct Hch as [[_ ->]|[_ [_ Hpp]]]; [congruence|].
           rewrite (SFltb_trans _ _ _ Hpp E) in Hgt. discriminate.
        -- exact (Hmax c' pc' Hin Hr).
      * intros c' pc' [<-|Hin] Hlt Hr.
        -- rewrite Hpc in Hr. injection Hr as <-.
           destruct Hch as [[-> _]|[_ [_ Hpp]]]; [lia|].
           destruct (SFeqb pc p) eqn:E; [|reflexivity].
           rewrite (SFeqb_ltb_compat pc p p0 E Hpp) in Hgt. discriminate.
        -- exact (Hfirst c' pc' Hin Hlt Hr).
Qed.

(** The inner loop ends whenever all its reads are inside the grid. *)
Lemma argmax_scan_defined (cs : list Z) :
  (forall c, In c cs -> exists pc, prob predictions i num_classes c = Some pc) ->
  forall m0 p0, exists r, argmax_scan predictions i num_classes cs m0 p0 = Some r.
Proof.
  induction cs as [|c cs IH]; intros Hr m0 p0; cbn [argmax_scan].
  - eexists; reflexivity.
  - destruct (Hr c (or_introl eq_refl)) as [pc Hpc].
    change (read predictions (i * num_classes + c))
      with (prob predictions i num_classes c).
    rewrite Hpc.
    cbn [obind]. destruct (Float32.gt pc p0); apply IH; intros; apply Hr; right; assumption.
Qed.

Lemma argmax_row_post (m : Z) :
  argmax_row predictions num_classes i = Some m ->
  scanned num_classes m /\
  exists pm, prob predictions i num_classes m = Some pm /\
    (forall c pc, scanned num_classes c ->
       prob predictions i num_classes c = Some pc -> Float32.gt pc pm = false) /\
    (forall c pc, scanned num_classes c -> c < m ->
       prob predictions i num_classes c = Some pc -> Float32.eq pc pm = false).
Proof.
  unfold argmax_row. intros H.
  destruct (read predictions (i * num_classes)) as [p0|] eqn:Hp0; [|discriminate].
  cbn [obind] in H.
  destruct (argmax_scan predictions i num_classes (range 1 num_classes) 0 p0)
    as [[m' p]|] eqn:Hscan; [|discriminate].
  cbn in H. injection H as ->.
  assert (prob predictions i num_classes 0 = Some p0) as Hprob0.
  { unfold prob. rewrite Z.add_0_r. exact Hp0. }
  destruct (argmax_scan_post _ _ _ _ _ (range_sorted 0 1 num_classes ltac:(lia)) Hscan)
    as [Hch Hst Hmax Hfirst].
  assert (prob predictions i num_classes m = Some p) as Hpm.
  { destruct Hch as [[-> ->]|[_ [Hr _]]]; assumption. }
  split.
  - destruct Hch as [[-> _]|[Hin _]]; [left; reflexivity|].
    right. apply In_range in Hin. exact Hin.
  - exists p. split; [exact Hpm|]. split.
    + intros c pc [->|Hc] Hr.
      * rewrite Hprob0 in Hr. injection Hr as <-. exact Hst.
      * apply (Hmax c pc); [apply In_range; exact Hc|exact Hr].
    + intros c pc [->|Hc] Hlt Hr.
      * rewrite Hprob0 in Hr. injection Hr as <-.
        destruct Hch as [[-> _]|[_ [_ Hpp]]]; [lia|].
        unfold Float32.eq, Float32.gt in *.
        destruct (SFeqb p0 p) eqn:E; [|reflexivity].
        pose proof (SFeqb_ltb_compat p0 p p0 E Hpp) as Habs.
        rewrite SFltb_irrefl in Habs. discriminate.
      * apply (Hfirst c pc); [apply In_range; exact Hc|exact Hlt|exact Hr].
Qed.

End Argmax.

(** ** The decoder as a collapse of the argmax labels *)

Lemma decode_loop_labels (predictions : list float) (num_classes : Z) (steps : list Z) :
  forall ls st,
    labels_of predictions num_classes steps = Some ls ->
    decode_loop predictions num_classes steps st = collapse ls st.
Proof.
  induction steps as [|i steps IH]; intros ls st H; cbn [labels_of] in H.
  - injection H as <-. reflexivity.
  - cbn [decode_loop].
    destruct (argmax_row predictions num_classes i) as [l|]; [|discriminate].
    cbn [obind] in *.
    destruct (labels_of predictions num_classes steps) as [ls'|]; [|discriminate].
    injection H as <-. cbn [collapse obind].
    destruct (ctc_step st l) as [st'|]; [|reflexivity].
    cbn [obind]. apply IH. reflexivity.
Qed.

Lemma decode_of_labels (predictions : list float) (num_classes : Z) (ls : list Z) :
  has_labels predictions num_classes ls ->
  ctcBeamSearchDecode predictions (Z.of_nat (List.length ls)) num_classes
  = option_map fst (collapse ls (EmptyString, -1)).
Proof.
  intros H. unfold ctcBeamSearchDecode.
  rewrite (decode_loop_labels _ _ _ _ _ H).
  destruct (collapse ls (EmptyString, -1)); reflexivity.
Qed.

(** A blank leaves the result as it is. *)
Lemma collapse_blank (ls : list Z) :
  Forall (fun l => l = 0) ls ->
  forall result prev_class,
    exists prev_class', collapse ls (result, prev_class) = Some (result, prev_class').
Proof.
  induction 1 as [|l ls -> _ IH]; intros result prev_class.
  - exists prev_class. reflexivity.
  - cbn. apply IH.
Qed.

(** ** The decoder returns on every grid of the announced size *)

Lemma read_defined (predictions : list float) (idx : Z) :
  0 <= idx < Z.of_nat (List.length predictions) ->
  exists v, read predictions idx = Some v.
Proof.
  intros H. unfold read. destruct (idx <? 0) eqn:E; [lia|].
  destruct (nth_error predictions (Z.to_nat idx)) as [v|] eqn:Hn.
  - exists v. reflexivity.
  - apply nth_error_None in Hn. lia.
Qed.

Lemma argmax_row_defined (predictions : list float) (num_classes i : Z) :
  0 <= i -> 1 <= num_classes ->
  (i + 1) * num_classes <= Z.of_nat (List.length predictions) ->
  exists m, argmax_row predictions num_classes i = Some m /\ 0 <= m.
Proof.
  intros Hi Hn Hlen. unfold argmax_row.
  destruct (read_defined predictions (i * num_classes)) as [p0 ->]; [nia|].
  cbn [obind].
  destruct (argmax_scan_defined predictions i num_classes (range 1 num_classes))
    with (m0 := 0) (p0 := p0) as [[m p] Hscan].
  { intros c Hc. apply In_range in Hc. apply read_defined. nia. }
  rewrite Hscan. cbn. exists m. split; [reflexivity|].
  destruct (argmax_scan_post _ _ _ _ _ _ _ _ (range_sorted 0 1 num_classes ltac:(lia)) Hscan)
    as [[[-> _]|[Hin _]] _ _ _]; [lia|].
  apply In_range in Hin. lia.
Qed.

Lemma get_defined (s : string) :
  forall n, (n < String.length s)%nat -> exists ch, String.get n s = Some ch.
Proof.
  induction s as [|a s IH]; intros n Hn; cbn in Hn; [lia|].
  destruct n as [|n]; cbn.
  - exists a. reflexivity.
  - apply IH. lia.
Qed.

(** The table is read inside its 36 characters only. *)
Lemma ctc_step_defined (st : string * Z) (max_class : Z) :
  0 <= max_class -> exists st', ctc_step st max_class = Some st'.
Proof.
  intros Hc. destruct st as [result prev_class]. unfold ctc_step.
  destruct (negb (max_class =? 0) && negb (max_class =? prev_class)) eqn:E;
    [|eexists; reflexivity].
  destruct (max_class - 1 <? NUM_CHARACTERS) eqn:E1; [|eexists; reflexivity].
  apply andb_prop in E. destruct E as [E _].
  unfold NUM_CHARACTERS in E1.
  assert (exists ch, CHARACTERS_at (max_class - 1) = Some ch) as [ch ->].
  { unfold CHARACTERS_at.
    change (Z.of_nat (String.length CHARACTERS)) with 36.
    destruct (max_class - 1 <? 0) eqn:E2; [lia|].
    destruct (max_class - 1 =? 36) eqn:E3; [lia|].
    apply get_defined. change (String.length CHARACTERS) with 36%nat. lia. }
  eexists. reflexivity.
Qed.

Lemma decode_loop_defined (predictions : list float) (num_classes : Z) (steps : list Z) :
  1 <= num_classes ->
  (forall i, In i steps ->
     0 <= i /\ (i + 1) * num_classes <= Z.of_nat (List.length predictions)) ->
  forall st, exists st', decode_loop predictions num_classes steps st = Some st'.
Proof.
  intros Hn. induction steps as [|i steps IH]; intros Hs st; cbn [decode_loop].
  - exists st. reflexivity.
  - destruct (Hs i (or_introl eq_refl)) as [Hi Hlen].
    destruct (argmax_row_defined predictions num_classes i Hi Hn Hlen) as [m [-> Hm]].
    cbn [obind]. destruct (ctc_step_defined st m Hm) as [st' ->]. cbn [obind].
    apply IH. intros i' Hin. apply Hs. right. exact Hin.
Qed.

Lemma ctcBeamSearchDecode_defined (predictions : list float) (seq_len num_classes : Z) :
  1 <= num_classes ->
  seq_len * num_classes <= Z.of_nat (List.length predictions) ->
  exists s, ctcBeamSearchDecode predictions seq_len num_classes = Some s.
Proof.
  intros Hn Hlen. unfold ctcBeamSearchDecode.
  destruct (decode_loop_defined predictions num_classes (range 0 seq_len) Hn)
    with (st := (EmptyString, -1)) as [st' ->].
  - intros i Hi. apply In_range in Hi. split; [lia|]. nia.
  - exists (fst st'). reflexivity.
Qed.

(** In a row without NaN the selected class has the greatest probability. *)
Lemma argmax_row_greatest (predictions : list float) (num_classes i m : Z) :
  argmax_row predictions num_classes i = Some m ->
  (forall c pc, scanned num_classes c -> prob predictions i num_classes c = Some pc ->
     Float32.is_nan pc = false) ->
  exists pm, prob predictions i num_classes m = Some pm /\
    forall c pc, scanned num_classes c -> prob predictions i num_classes c = Some pc ->
      Float32.le pc pm = true.
Proof.
  intros H Hnan.
  destruct (argmax_row_post _ _ _ _ H) as [Hs [pm [Hpm [Hmax _]]]].
  exists pm. split; [exact Hpm|]. intros c pc Hc Hr.
  apply SFleb_of_not_ltb.
  - exact (Hnan c pc Hc Hr).
  - exact (Hnan m pm Hs Hpm).
  - exact (Hmax c pc Hc Hr).
Qed.

(** ** The alphabet table *)

Lemma class_from_spec (table : string) (ch : ascii) :
  forall k c,
    class_from k table ch = Some c ->
    k + 1 <= c <= k + Z.of_nat (String.length table) /\
    String.get (Z.to_nat (c - k - 1)) table = Some ch.
Proof.
  induction table as [|a table IH]; intros k c H; cbn [class_from] in H.
  - discriminate.
  - cbn [String.length]. destruct (Ascii.eqb a ch) eqn:E.
    + injection H as <-. apply Ascii.eqb_eq in E. subst a.
      replace (k + 1 - k - 1) with 0 by lia. cbn. split; [lia|reflexivity].
    + destruct (IH _ _ H) as [Hr Hg]. split; [lia|].
      replace (Z.to_nat (c - k - 1)) with (S (Z.to_nat (c - (k + 1) - 1))) by lia.
      exact Hg.
Qed.

Lemma CHARACTERS_at_class (ch : ascii) (c : Z) :
  class_from 0 CHARACTERS ch = Some c ->
  1 <= c <= NUM_CHARACTERS /\ CHARACTERS_at (c - 1) = Some ch.
Proof.
  intros H. destruct (class_from_spec _ _ _ _ H) as [Hr Hg].
  change (Z.of_nat (String.length CHARACTERS)) with 36 in Hr.
  unfold NUM_CHARACTERS. split; [lia|].
  unfold CHARACTERS_at.
  change (Z.of_nat (String.length CHARACTERS)) with 36.
  destruct (c - 1 <? 0) eqn:E1; [lia|].
  destruct (c - 1 =? 36) eqn:E2; [lia|].
  replace (c - 0 - 1) with (c - 1) in Hg by lia. exact Hg.
Qed.

Lemma append_snoc (a : string) (ch : ascii) (b : string) :
  ((a ++ String ch EmptyString) ++ b = a ++ String ch b)%string.
Proof.
  induction a as [|x a IH]; cbn; [reflexivity|]. rewrite IH. reflexivity.
Qed.

Lemma append_empty (a : string) : (a ++ EmptyString = a)%string.
Proof.
  induction a as [|x a IH]; cbn; [reflexivity|]. rewrite IH. reflexivity.
Qed.

(** Decoding the re-encoding of a string without adjacent repeats appends
    that string to the result. *)
Lemma collapse_encode (s : string) :
  forall ls result prev_class,
    encode s = Some ls ->
    no_adjacent_repeat ls = true ->
    hd_error ls <> Some prev_class ->
    exists prev_class',
      collapse ls (result, prev_class) = Some ((result ++ s)%string, prev_class').
Proof.
  induction s as [|ch s IH]; intros ls result prev_class He Hn Hp; cbn [encode] in He.
  - injection He as <-. exists prev_class. cbn. rewrite append_empty. reflexivity.
  - destruct (class_from 0 CHARACTERS ch) as [c|] eqn:Hc; [|discriminate].
    cbn [obind] in He.
    destruct (encode s) as [cs|] eqn:Hcs; [|discriminate].
    injection He as <-.
    destruct (CHARACTERS_at_class _ _ Hc) as [Hr Hat].
    cbn [collapse ctc_step].
    assert ((c =? 0) = false) as -> by lia.
    assert ((c =? prev_class) = false) as ->.
    { apply Z.eqb_neq. intros ->. apply Hp. reflexivity. }
    assert ((c - 1 <? NUM_CHARACTERS) = true) as -> by lia.
    cbn [negb andb]. rewrite Hat. cbn [obind].
    destruct (IH cs (result ++ String ch EmptyString)%string c eq_refl) as [prev' Hprev'].
    + destruct cs as [|c' cs']; [reflexivity|].
      cbn [no_adjacent_repeat] in Hn. apply andb_prop in Hn. apply Hn.
    + destruct cs as [|c' cs']; [discriminate|].
      cbn [no_adjacent_repeat] in Hn. apply andb_prop in Hn. destruct Hn as [Hn _].
      cbn. intros [= ->]. rewrite Z.eqb_refl in Hn. discriminate.
    + exists prev'. rewrite Hprev', append_snoc. reflexivity.
Qed.

Lemma encode_length (s : string) :
  forall ls, encode s = Some ls -> List.length ls = String.length s.
Proof.
  induction s as [|ch s IH]; intros ls H; cbn [encode] in H.
  - injection H as <-. reflexivity.
  - destruct (class_from 0 CHARACTERS ch); [|discriminate].
    destruct (encode s) as [cs|]; [|discriminate].
    injection H as <-. cbn. f_equal. apply IH. reflexivity.
Qed.

(** ** Preprocessing *)

Lemma write_spec (input_buffer : list float) (idx : Z) (v : float) (out : list float) :
  write input_buffer idx v = Some out ->
  0 <= idx < Z.of_nat (List.length input_buffer) /\
  List.length out = List.length input_buffer /\
  nth_error out (Z.to_nat idx) = Some v /\
  (forall j, j <> Z.to_nat idx -> nth_error out j = nth_error input_buffer j).
Proof.
  unfold write. intros H.
  destruct (idx <? 0) eqn:E0; [discriminate|].
  destruct (idx <? Z.of_nat (List.length input_buffer)) eqn:E1; [|discriminate].
  set (n := Z.to_nat idx) in *.
  assert (out = firstn n input_buffer ++ v :: skipn (S n) input_buffer) as ->
    by congruence.
  clear H.
  assert (n < List.length input_buffer)%nat as Hn by lia.
  assert (List.length (firstn n input_buffer) = n) as Hf.
  { rewrite length_firstn. lia. }
  split; [lia|]. split; [|split].
  - rewrite length_app, Hf. cbn [List.length]. rewrite length_skipn. lia.
  - rewrite nth_error_app2 by lia. rewrite Hf, Nat.sub_diag. reflexivity.
  - intros j Hj. destruct (Nat.lt_ge_cases j n) as [Hlt|Hge].
    + rewrite nth_error_app1 by lia. rewrite nth_error_firstn.
      apply Nat.ltb_lt in Hlt. rewrite Hlt. reflexivity.
    + rewrite nth_error_app2 by lia. rewrite Hf.
      destruct (j - n)%nat as [|k] eqn:Ek; [lia|].
      cbn [nth_error]. rewrite nth_error_skipn. f_equal. lia.
Qed.

Lemma write_defined (input_buffer : list float) (idx : Z) (v : float) :
  0 <= idx < Z.of_nat (List.length input_buffer) ->
  exists out, write input_buffer idx v = Some out.
Proof.
  intros H. unfold write.
  destruct (idx <? 0) eqn:E0; [lia|].
  destruct (idx <? Z.of_nat (List.length input_buffer)) eqn:E1; [|lia].
  eexists. reflexivity.
Qed.

Section Preprocess.

Variable fb : camera_fb_t.

(** What one row of the loop leaves in the buffer. *)
Lemma preprocess_row_spec (y : Z) (xs : list Z) :
  forall input_buffer out,
    preprocess_row fb y xs input_buffer = Some out ->
    List.length out = List.length input_buffer /\
    (forall x, In x xs -> 0 <= pixel_index x y < Z.of_nat (List.length input_buffer)) /\
    (forall j, (forall x, In x xs -> j <> Z.to_nat (pixel_index x y)) ->
       nth_error out j = nth_error input_buffer j) /\
    (NoDup xs -> forall x, In x xs ->
       exists v, sample fb x y = Some v /\
                 nth_error out (Z.to_nat (pixel_index x y)) = Some v).
Proof.
  induction xs as [|x xs IH]; intros input_buffer out H; cbn [preprocess_row] in H.
  - injection H as <-. split; [reflexivity|]. split; [intros x []|].
    split; [reflexivity|]. intros _ x [].
  - destruct (sample fb x y) as [v|] eqn:Hv; [|discriminate].
    cbn [obind] in H.
    change (y * OCR_INPUT_WIDTH + x) with (pixel_index x y) in H.
    destruct (write input_buffer (pixel_index x y) v) as [b1|] eqn:Hw; [|discriminate].
    cbn [obind] in H.
    destruct (write_spec _ _ _ _ Hw) as [Hidx [Hlen [Hnth Hother]]].
    destruct (IH _ _ H) as [Hlen' [Hidx' [Hother' Hval']]].
    rewrite Hlen in Hlen', Hidx'.
    split; [exact Hlen'|]. split; [|split].
    + intros x' [<-|Hin]; [exact Hidx|exact (Hidx' x' Hin)].
    + intros j Hj. rewrite Hother'.
      * apply Hother. apply Hj. left. reflexivity.
      * intros x' Hin. apply Hj. right. exact Hin.
    + intros Hnd x' [<-|Hin].
      * exists v. split; [exact Hv|]. rewrite Hother'; [exact Hnth|].
        intros x' Hin Heq. inversion Hnd as [|? ? Hnotin _]; subst.
        assert (x = x') as ->; [|contradiction].
        specialize (Hidx' x' Hin). unfold pixel_index in *. lia.
      * inversion Hnd as [|? ? _ Hnd']; subst. exact (Hval' Hnd' x' Hin).
Qed.

(** What the whole loop leaves in the buffer. *)
Lemma preprocess_rows_spec (ys : list Z) :
  forall input_buffer out,
    preprocess_rows fb ys input_buffer = Some out ->
    List.length out = List.length input_buffer /\
    (forall x y, In y ys -> 0 <= x < OCR_INPUT_WIDTH ->
       0 <= pixel_index x y < Z.of_nat (List.length input_buffer)) /\
    (forall j, (forall x y, In y ys -> 0 <= x < OCR_INPUT_WIDTH ->
                  j <> Z.to_nat (pixel_index x y)) ->
       nth_error out j = nth_error input_buffer j) /\
    (NoDup ys -> forall x y, In y ys -> 0 <= x < OCR_INPUT_WIDTH ->
       exists v, sample fb x y = Some v /\
                 nth_error out (Z.to_nat (pixel_index x y)) = Some v).
Proof.
  induction ys as [|y ys IH]; intros input_buffer out H; cbn [preprocess_rows] in H.
  - injection H as <-. split; [reflexivity|]. split; [intros x y []|].
    split; [reflexivity|]. intros _ x y [].
  - destruct (preprocess_row fb y (range 0 OCR_INPUT_WIDTH) input_buffer)
      as [b1|] eqn:Hrow; [|discriminate].
    cbn [obind] in H.
    destruct (preprocess_row_spec _ _ _ _ Hrow) as [Hlen [Hidx [Hother Hval]]].
    destruct (IH _ _ H) as [Hlen' [Hidx' [Hother' Hval']]].
    rewrite Hlen in Hlen', Hidx'.
    split; [exact Hlen'|]. split; [|split].
    + intros x y' [<-|Hin] Hx; [apply Hidx; apply In_range; exact Hx|].
      exact (Hidx' x y' Hin Hx).
    + intros j Hj. rewrite Hother'.
      * apply Hother. intros x Hx. apply Hj; [left; reflexivity|].
        apply In_range. exact Hx.
      * intros x y' Hin Hx. apply Hj; [right; exact Hin|exact Hx].
    + intros Hnd x y' [<-|Hin] Hx.
      * destruct (Hval (NoDup_range 0 OCR_INPUT_WIDTH) x) as [v [Hv Hnth]].
        { apply In_range. exact Hx. }
        exists v. split; [exact Hv|]. rewrite Hother'; [exact Hnth|].
        intros x' y' Hin Hx' Heq. inversion Hnd as [|? ? Hnotin _]; subst.
        assert (y = y') as ->; [|contradiction].
        specialize (Hidx' x' y' Hin Hx').
        assert (0 <= pixel_index x y) as Hge.
        { apply (Hidx x). apply In_range. exact Hx. }
        unfold pixel_index, OCR_INPUT_WIDTH in *. lia.
      * inversion Hnd as [|? ? _ Hnd']; subst. exact (Hval' Hnd' x y' Hin Hx).
Qed.

Hypothesis fb_ok : fb_valid fb.

Lemma to_int_range (n : Z) : - 2 ^ 31 <= to_int n < 2 ^ 31.
Proof.
  unfold to_int.
  pose proof (Z.mod_pos_bound (n + 2 ^ 31) (2 ^ 32) ltac:(lia)). lia.
Qed.

Lemma to_int_small (n : Z) : - 2 ^ 31 <= n < 2 ^ 31 -> to_int n = n.
Proof. intros H. unfold to_int. rewrite Z.mod_small; lia. Qed.

(** The conversion of an [int] to [size_t] adds 2^32 to the negative ones. *)
Lemma to_size_t_of_int (n : Z) :
  - 2 ^ 31 <= n < 2 ^ 31 ->
  (0 <= n /\ to_size_t n = n) \/ (n < 0 /\ to_size_t n = n + 2 ^ 32).
Proof.
  intros H. unfold to_size_t. destruct (Z.lt_ge_cases n 0) as [Hneg|Hpos].
  - right. split; [exact Hneg|].
    rewrite <- (Z_mod_plus_full n 1 (2 ^ 32)). rewrite Z.mod_small; lia.
  - left. split; [exact Hpos|]. apply Z.mod_small. lia.
Qed.

Lemma src_index_range (x y : Z) : - 2 ^ 31 <= src_index fb x y < 2 ^ 31.
Proof. unfold src_index, int_add. apply to_int_range. Qed.

(** On a valid frame every read of the loop is inside [buf]: an index
    that passes the comparison with [fb->len] is not negative. *)
Lemma sample_defined (x y : Z) :
  0 <= x < OCR_INPUT_WIDTH -> 0 <= y < OCR_INPUT_HEIGHT ->
  exists v, sample fb x y = Some v.
Proof.
  intros Hx Hy. destruct fb_ok as [Hlen Hmax].
  unfold sample.
  destruct (to_size_t (src_index fb x y) <? len fb) eqn:E; [|eexists; reflexivity].
  pose proof (src_index_range x y) as Hr.
  destruct (to_size_t_of_int _ Hr) as [[Hpos Hs]|[Hneg Hs]];
    rewrite Hs in E; [|lia].
  unfold read_byte. destruct (src_index fb x y <? 0) eqn:E0; [lia|].
  destruct (nth_error (buf fb) (Z.to_nat (src_index fb x y))) as [b|] eqn:Hn.
  - eexists. reflexivity.
  - apply nth_error_None in Hn. lia.
Qed.

Lemma preprocess_row_defined (y : Z) (xs : list Z) :
  0 <= y < OCR_INPUT_HEIGHT ->
  (forall x, In x xs -> 0 <= x < OCR_INPUT_WIDTH) ->
  forall input_buffer,
    (y + 1) * OCR_INPUT_WIDTH <= Z.of_nat (List.length input_buffer) ->
    exists out, preprocess_row fb y xs input_buffer = Some out.
Proof.
  intros Hy. induction xs as [|x xs IH]; intros Hxs input_buffer Hlen;
    cbn [preprocess_row].
  - eexists. reflexivity.
  - assert (0 <= x < OCR_INPUT_WIDTH) as Hx by (apply Hxs; left; reflexivity).
    destruct (sample_defined x y Hx Hy) as [v ->]. cbn [obind].
    destruct (write_defined input_buffer (y * OCR_INPUT_WIDTH + x) v) as [b1 Hw].
    { unfold OCR_INPUT_WIDTH in *. lia. }
    rewrite Hw. cbn [obind]. apply IH.
    + intros x' Hin. apply Hxs. right. exact Hin.
    + destruct (write_spec _ _ _ _ Hw) as [_ [-> _]]. exact Hlen.
Qed.

Lemma preprocess_rows_defined (ys : list Z) :
  (forall y, In y ys -> 0 <= y < OCR_INPUT_HEIGHT) ->
  forall input_buffer,
    OCR_INPUT_WIDTH * OCR_INPUT_HEIGHT <= Z.of_nat (List.length input_buffer) ->
    exists out, preprocess_rows fb ys input_buffer = Some out.
Proof.
  induction ys as [|y ys IH]; intros Hys input_buffer Hlen; cbn [preprocess_rows].
  - eexists. reflexivity.
  - assert (0 <= y < OCR_INPUT_HEIGHT) as Hy by (apply Hys; left; reflexivity).
    destruct (preprocess_row_defined y (range 0 OCR_INPUT_WIDTH) Hy) with
      (input_buffer := input_buffer) as [b1 Hrow].
    { intros x Hx. apply In_range in Hx. exact Hx. }
    { unfold OCR_INPUT_WIDTH, OCR_INPUT_HEIGHT in *. lia. }
    rewrite Hrow. cbn [obind]. apply IH.
    + intros y' Hin. apply Hys. right. exact Hin.
    + destruct (preprocess_row_spec _ _ _ _ Hrow) as [-> _]. exact Hlen.
Qed.

(** On a valid frame and a buffer of at least 128 x 64 floats,
    [preprocessImage] returns, and every output pixel holds its sample. *)
Lemma preprocessImage_samples (input_buffer : list float) :
  OCR_INPUT_WIDTH * OCR_INPUT_HEIGHT <= Z.of_nat (List.length input_buffer) ->
  exists out,
    preprocessImage fb input_buffer = Some out /\
    List.length out = List.length input_buffer /\
    forall x y, 0 <= x < OCR_INPUT_WIDTH -> 0 <= y < OCR_INPUT_HEIGHT ->
      exists v, sample fb x y = Some v /\
                nth_error out (Z.to_nat (pixel_index x y)) = Some v.
Proof.
  intros Hlen. unfold preprocessImage.
  destruct (preprocess_rows_defined (range 0 OCR_INPUT_HEIGHT)) with
    (input_buffer := input_buffer) as [out Hout].
  { intros y Hy. apply In_range in Hy. exact Hy. }
  { exact Hlen. }
  exists out. split; [exact Hout|].
  destruct (preprocess_rows_spec _ _ _ Hout) as [Hl [_ [_ Hval]]].
  split; [exact Hl|].
  intros x y Hx Hy. apply (Hval (NoDup_range 0 OCR_INPUT_HEIGHT)); [|exact Hx].
  apply In_range. exact Hy.
Qed.

End Preprocess.

(** ** The runs of one iteration *)

Section LoopRuns.

Variable stage1 : camera_fb_t -> stage BoundingBox.
Variable stage2 : camera_fb_t -> BoundingBox -> stage Polygon.
Variable stage3 : camera_fb_t -> Polygon -> stage string.
Variable env : loop_env.
Variable fb : camera_fb_t.

Hypothesis acquired : fb_get env = Some fb.

(** The run that stops after detection. *)
Lemma loop_run_not_found :
  below_threshold (confidence (snd (stage1 fb))) = true ->
  run (loop_with stage1 stage2 stage3 env)
  = [FbGet;
     SerialPrint MsgBanner;
     SerialPrint (MsgImageCaptured (width fb) (height fb) (len fb));
     Call Detection (fst (stage1 fb));
     SerialPrint MsgNoPlate;
     FbReturn fb;
     Delay 2000].
Proof.
  intros Hc. unfold run, loop_with. rewrite acquired.
  unfold bind, call, emit, print, delay, millis, ret, start. cbn.
  rewrite Hc. reflexivity.
Qed.

(** The run that goes through the three stages. *)
Lemma loop_run_recognized :
  below_threshold (confidence (snd (stage1 fb))) = false ->
  let plate_box := snd (stage1 fb) in
  let plate_polygon := snd (stage2 fb plate_box) in
  let plate_number := snd (stage3 fb plate_polygon) in
  run (loop_with stage1 stage2 stage3 env)
  = [FbGet;
     SerialPrint MsgBanner;
     SerialPrint (MsgImageCaptured (width fb) (height fb) (len fb));
     Call Detection (fst (stage1 fb));
     Call PolygonModel (fst (stage2 fb plate_box));
     Call Ocr (fst (stage3 fb plate_polygon));
     SerialPrint MsgComplete;
     SerialPrint (MsgLicensePlate plate_number);
     SerialPrint MsgTimingBreakdown;
     SerialPrint (MsgStageTime Detection (sub32 (tick env 2) (tick env 1)));
     SerialPrint (MsgStageTime PolygonModel (sub32 (tick env 4) (tick env 3)));
     SerialPrint (MsgStageTime Ocr (sub32 (tick env 6) (tick env 5)));
     SerialPrint (MsgTotalTime (sub32 (tick env 7) (tick env 0)));
     SerialPrint (MsgConfidence
              (Float64.of_float
                 (Float32.mul (confidence plate_box) (Float32.of_Z 100))));
     SerialPrint (MsgFreeHeap (free_heap env));
     SerialPrint MsgEnd;
     FbReturn fb;
     Delay 3000].
Proof.
  intros Hc. unfold run, loop_with. rewrite acquired.
  unfold bind, call, emit, print, delay, millis, ret, start. cbn.
  rewrite Hc. reflexivity.
Qed.

End LoopRuns.

(** ** The preprocessing claim *)

(** C3, as the code has it.  [preprocessImage] does not clamp: on a valid
    frame and a buffer of at least 128 x 64 floats it returns, an output
    pixel whose source index (computed in [int], compared as [size_t]) is
    at or beyond [fb->len] is set to [0.0f], and any other output pixel
    is set to its source byte divided by 255. *)
Theorem preprocessImage_zero_beyond_len :
  forall fb input_buffer,
    fb_valid fb ->
    OCR_INPUT_WIDTH * OCR_INPUT_HEIGHT <= Z.of_nat (List.length input_buffer) ->
    exists out,
      preprocessImage fb input_buffer = Some out /\
      forall x y, 0 <= x < OCR_INPUT_WIDTH -> 0 <= y < OCR_INPUT_HEIGHT ->
        (len fb <= to_size_t (src_index fb x y) ->
         nth_error out (Z.to_nat (pixel_index x y)) = Some Float32.zero) /\
        (to_size_t (src_index fb x y) < len fb ->
         exists b,
           read_byte (buf fb) (src_index fb x y) = Some b /\
           nth_error out (Z.to_nat (pixel_index x y))
           = Some (Float32.div (Float32.of_Z b) (Float32.of_Z 255))).
Proof.
  intros fb input_buffer Hfb Hlen.
  destruct (preprocessImage_samples fb Hfb input_buffer Hlen) as [out [Hout [_ Hval]]].
  exists out. split; [exact Hout|].
  intros x y Hx Hy. destruct (Hval x y Hx Hy) as [v [Hv Hnth]].
  unfold sample in Hv.
  split; intros Hcmp.
  - assert ((to_size_t (src_index fb x y) <? len fb) = false) as E by lia.
    rewrite E in Hv. congruence.
  - assert ((to_size_t (src_index fb x y) <? len fb) = true) as E by lia.
    rewrite E in Hv.
    destruct (read_byte (buf fb) (src_index fb x y)) as [b|]; [|discriminate].
    exists b. split; [reflexivity|]. cbn [obind] in Hv. congruence.
Qed.

Lemma preprocessImage_zero_beyond_len_witness :
  exists out,
    preprocessImage short_frame white_buffer = Some out /\
    nth_error out (Z.to_nat (pixel_index 2 0)) = Some Float32.zero.
Proof.
  destruct (preprocessImage_zero_beyond_len short_frame white_buffer)
    as [out [Hout Hpix]].
  - unfold fb_valid. cbn. lia.
  - unfold white_buffer. rewrite repeat_length. lia.
  - exists out. split; [exact Hout|].
    apply (Hpix 2 0); unfold OCR_INPUT_WIDTH, OCR_INPUT_HEIGHT; try lia.
    vm_compute. discriminate.
Defined.

(** C3, as stated, fails.  In the frame [short_frame] every valid pixel is
    white, so clamping could only give 1.0; the output pixel (2, 0), whose
    source index 5 is beyond the four bytes of the frame, is set to 0.0. *)
Lemma preprocessImage_writes_black :
  src_index short_frame 2 0 = 5 /\
  Forall (fun b => Float32.div (Float32.of_Z (Z.of_N (Byte.to_N b))) (Float32.of_Z 255)
                   = Float32.one) (buf short_frame) /\
  option_map (fun out => nth_error out (Z.to_nat (pixel_index 2 0)))
    (preprocessImage short_frame white_buffer)
  = Some (Some Float32.zero).
Proof.
  split; [reflexivity|]. split.
  - repeat constructor.
  - vm_compute. reflexivity.
Qed.

(** ** The decoder's claims *)

(** C8.  The decoder returns an already collapsed string unchanged: for
    every string over the table whose re-encoding [ls] (one class per
    character, none of them the blank) has no two equal adjacent classes,
    every grid with the argmax labels [ls] decodes to that string. *)
Theorem decode_collapsed_string :
  forall s ls predictions num_classes,
    encode s = Some ls ->
    no_adjacent_repeat ls = true ->
    has_labels predictions num_classes ls ->
    ctcBeamSearchDecode predictions (Z.of_nat (String.length s)) num_classes = Some s.
Proof.
  intros s ls predictions num_classes He Hn Hl.
  rewrite <- (encode_length _ _ He), (decode_of_labels _ _ _ Hl).
  destruct (collapse_encode s ls EmptyString (-1) He Hn) as [prev' ->].
  - destruct s as [|ch s]; cbn [encode] in He.
    + injection He as <-. discriminate.
    + destruct (class_from 0 CHARACTERS ch) as [c|] eqn:Hc; [|discriminate].
      destruct (encode s) as [cs|]; [|discriminate].
      injection He as <-. cbn. intros [= ->].
      apply CHARACTERS_at_class in Hc. lia.
  - reflexivity.
Qed.

Lemma decode_collapsed_string_witness :
  ctcBeamSearchDecode (grid_of 37 [11; 12; 13; 2; 3; 4; 5]) 7 37 = Some "ABC1234"%string.
Proof.
  apply (decode_collapsed_string "ABC1234" [11; 12; 13; 2; 3; 4; 5]).
  - reflexivity.
  - reflexivity.
  - vm_compute. reflexivity.
Defined.

(** C9.  At a timestep whose argmax class [c] is not the blank, differs
    from the previous class and is beyond the table ([c - 1 >= 36]), the
    step is defined (the table is not read), the result is unchanged, and
    the previous class becomes [c]; so the same class at the next timestep
    emits nothing either. *)
Theorem class_beyond_table_emits_nothing :
  forall result prev_class c,
    c <> 0 -> c <> prev_class -> c - 1 >= NUM_CHARACTERS ->
    ctc_step (result, prev_class) c = Some (result, c) /\
    ctc_step (result, c) c = Some (result, c).
Proof.
  intros result prev_class c H0 Hp Hc. unfold ctc_step.
  assert ((c =? 0) = false) as -> by lia.
  assert ((c =? prev_class) = false) as -> by lia.
  assert ((c - 1 <? NUM_CHARACTERS) = false) as -> by lia.
  rewrite Z.eqb_refl. split; reflexivity.
Qed.

Lemma class_beyond_table_emits_nothing_witness :
  ctc_step ("AB"%string, 12) 37 = Some ("AB"%string, 37) /\
  ctc_step ("AB"%string, 37) 37 = Some ("AB"%string, 37).
Proof.
  apply class_beyond_table_emits_nothing; unfold NUM_CHARACTERS; lia.
Defined.

(** ** The claims on the main loop *)

(** C1.  In every iteration that gets a frame, whatever the stages answer,
    the frame is given back to the driver exactly once: the returns of the
    run are that frame, once, on the run that stops after detection and on
    the run that goes through the three stages. *)
Theorem frame_returned_exactly_once :
  forall stage1 stage2 stage3 env fb,
    fb_get env = Some fb ->
    fb_returns (run (loop_with stage1 stage2 stage3 env)) = [fb].
Proof.
  intros stage1 stage2 stage3 env fb Hfb.
  destruct (below_threshold (confidence (snd (stage1 fb)))) eqn:Hc.
  - rewrite (loop_run_not_found stage1 stage2 stage3 env fb Hfb Hc). reflexivity.
  - rewrite (loop_run_recognized stage1 stage2 stage3 env fb Hfb Hc). reflexivity.
Qed.

Lemma frame_returned_exactly_once_witness :
  fb_returns (run (loop example_env)) = [small_frame] /\
  fb_returns (run (loop_with (detector confidence_0_3) detectPolygon
                     recognizeCharacters example_env)) = [small_frame].
Proof.
  split; apply frame_returned_exactly_once; reflexivity.
Defined.

(** C5, as the code has it.  Whenever the detection stage reports a
    confidence below 0.5, the iteration prints that no plate was detected
    and ends after detection: the only stage called is the detection, and
    the frame is given back exactly once.  The threshold is the literal
    0.5 of [loop]. *)
Theorem low_confidence_stops_after_detection :
  forall stage1 stage2 stage3 env fb,
    fb_get env = Some fb ->
    Float64.lt (Float64.of_float (confidence (snd (stage1 fb)))) (Float64.literal 1 2)
    = true ->
    let t := run (loop_with stage1 stage2 stage3 env) in
    calls t = [Detection] /\
    fb_returns t = [fb] /\
    In (SerialPrint MsgNoPlate) t.
Proof.
  intros stage1 stage2 stage3 env fb Hfb Hc t. subst t.
  rewrite (loop_run_not_found stage1 stage2 stage3 env fb Hfb Hc).
  split; [reflexivity|]. split; [reflexivity|].
  cbn. tauto.
Qed.

Lemma low_confidence_stops_after_detection_witness :
  calls (run (loop_with (detector confidence_0_3) detectPolygon
                recognizeCharacters example_env)) = [Detection] /\
  fb_returns (run (loop_with (detector confidence_0_3) detectPolygon
                     recognizeCharacters example_env)) = [small_frame].
Proof.
  destruct (low_confidence_stops_after_detection (detector confidence_0_3)
              detectPolygon recognizeCharacters example_env small_frame)
    as [Hcalls [Hret _]].
  - reflexivity.
  - vm_compute. reflexivity.
  - split; [exact Hcalls|exact Hret].
Defined.

(** C5, as stated, fails: the threshold is not a parameter.  With a
    threshold of 0.2 a confidence of 0.3 passes the gate of the design,
    but [loop] stops after detection all the same. *)
Lemma threshold_is_not_configurable :
  gated_out (Float64.literal 2 10) confidence_0_3 = false /\
  calls (run (loop_with (detector confidence_0_3) detectPolygon
                recognizeCharacters example_env)) = [Detection].
Proof.
  split; vm_compute; reflexivity.
Qed.

(** C6, as the code has it.  The run that goes through the three stages
    reports the three stage durations and the total duration, each the
    difference modulo 2^32 of two readings of [millis()]; the run that
    stops after detection reports no duration. *)
Theorem durations_reported_on_success_only :
  forall stage1 stage2 stage3 env fb,
    fb_get env = Some fb ->
    let t := run (loop_with stage1 stage2 stage3 env) in
    (below_threshold (confidence (snd (stage1 fb))) = false ->
     timings t
     = [MsgStageTime Detection (sub32 (tick env 2) (tick env 1));
        MsgStageTime PolygonModel (sub32 (tick env 4) (tick env 3));
        MsgStageTime Ocr (sub32 (tick env 6) (tick env 5));
        MsgTotalTime (sub32 (tick env 7) (tick env 0))]) /\
    (below_threshold (confidence (snd (stage1 fb))) = true -> timings t = []).
Proof.
  intros stage1 stage2 stage3 env fb Hfb t. subst t. split; intros Hc.
  - rewrite (loop_run_recognized stage1 stage2 stage3 env fb Hfb Hc). reflexivity.
  - rewrite (loop_run_not_found stage1 stage2 stage3 env fb Hfb Hc). reflexivity.
Qed.

Lemma durations_reported_on_success_only_witness :
  timings (run (loop example_env))
  = [MsgStageTime Detection 10; MsgStageTime PolygonModel 10;
     MsgStageTime Ocr 10; MsgTotalTime 70].
Proof.
  exact (proj1 (durations_reported_on_success_only detectPlate detectPolygon
                  recognizeCharacters example_env small_frame eq_refl) eq_refl).
Defined.

(** C6, as stated, fails: the iteration that stops after detection gets a
    frame and reports no duration at all. *)
Lemma not_found_reports_no_duration :
  fb_get example_env = Some small_frame /\
  calls (run (loop_with (detector confidence_0_3) detectPolygon
                recognizeCharacters example_env)) = [Detection] /\
  timings (run (loop_with (detector confidence_0_3) detectPolygon
                  recognizeCharacters example_env)) = [].
Proof.
  split; [reflexivity|]. split; vm_compute; reflexivity.
Qed.

(** ** The runs of the initialisation *)

(** [setup] reads the version of the detection asset and of no other: two
    start-ups that differ only in the versions of the polygon and OCR
    assets run alike. *)
Lemma setup_reads_detection_version_only (TFLITE_SCHEMA_VERSION : Z) (env env' : setup_env) :
  camera_init_result env = camera_init_result env' ->
  model_version env Detection = model_version env' Detection ->
  (forall m, allocate_ok env m = allocate_ok env' m) ->
  (forall m, arena_used_bytes env m = arena_used_bytes env' m) ->
  run (setup TFLITE_SCHEMA_VERSION env) = run (setup TFLITE_SCHEMA_VERSION env').
Proof.
  intros Hc Hv Ha Hu. unfold run, setup.
  rewrite Hc, Hv, !Ha, !Hu. reflexivity.
Qed.

(** A detection asset of another version than the supported one ends
    [setup] before any tensor is allocated. *)
Lemma setup_rejects_detection_version (TFLITE_SCHEMA_VERSION : Z) (env : setup_env) :
  camera_init_result env = ESP_OK ->
  model_version env Detection <> TFLITE_SCHEMA_VERSION ->
  run (setup TFLITE_SCHEMA_VERSION env)
  = [SerialBegin 115200; Delay 3000; SerialPrint MsgTitle; CameraInit;
     SerialPrint MsgCameraInitialized; SerialPrint MsgInitializingModels;
     SerialPrint (MsgLoading Detection); GetModel Detection;
     SerialPrint (MsgSchemaMismatch Detection)].
Proof.
  intros Hc Hv. unfold run, setup. rewrite Hc.
  apply Z.eqb_neq in Hv. rewrite Hv. reflexivity.
Qed.

(** ** The claim on the initialisation *)

(** C4 fails on the code.  With the schema version 3, a start-up whose
    polygon and OCR assets declare the unsupported version 2 goes through:
    [setup] gets, allocates and binds the three models, complains about no
    schema, and ends with the message that all models are ready.  Only the
    version of the detection asset is compared. *)
Theorem setup_accepts_unsupported_polygon_and_ocr :
  let t := run (setup 3 (versions_env 3 2 2)) in
  mismatches t = [] /\
  last t (SerialPrint MsgTitle) = SerialPrint MsgAllModelsReady /\
  In (BindTensors PolygonModel) t /\
  In (BindTensors Ocr) t /\
  mismatches (run (setup 3 (versions_env 2 3 3))) = [Detection] /\
  last (run (setup 3 (versions_env 2 3 3))) (SerialPrint MsgTitle)
  = SerialPrint (MsgSchemaMismatch Detection).
Proof.
  cbv zeta. split; [reflexivity|]. split; [reflexivity|].
  split; [cbn; tauto|]. split; [cbn; tauto|]. split; reflexivity.
Qed.

(** * Further properties of the sketch *)

(** ** The decoder: bounds *)

Lemma argmax_scan_reads (predictions : list float) (i num_classes : Z) (cs : list Z) :
  forall m0 p0 r,
    argmax_scan predictions i num_classes cs m0 p0 = Some r ->
    forall c, In c cs -> exists pc, prob predictions i num_classes c = Some pc.
Proof.
  induction cs as [|c cs IH]; intros m0 p0 r H c' Hin; [destruct Hin|].
  cbn [argmax_scan] in H.
  change (read predictions (i * num_classes + c))
    with (prob predictions i num_classes c) in H.
  destruct (prob predictions i num_classes c) as [pc|] eqn:Hpc; [|discriminate].
  cbn [obind] in H. destruct Hin as [<-|Hin].
  - exists pc. exact Hpc.
  - destruct (Float32.gt pc p0); exact (IH _ _ _ H c' Hin).
Qed.

(** A row whose argmax is found has all its cells inside the grid. *)
Lemma argmax_row_reads (predictions : list float) (num_classes i m : Z) :
  argmax_row predictions num_classes i = Some m ->
  forall c, scanned num_classes c ->
    exists pc, prob predictions i num_classes c = Some pc.
Proof.
  unfold argmax_row. intros H c Hc.
  destruct (read predictions (i * num_classes)) as [p0|] eqn:Hp0; [|discriminate].
  cbn [obind] in H.
  destruct (argmax_scan predictions i num_classes (range 1 num_classes) 0 p0)
    as [r|] eqn:Hscan; [|discriminate].
  destruct Hc as [->|Hc].
  - exists p0. unfold prob. rewrite Z.add_0_r. exact Hp0.
  - apply (argmax_scan_reads _ _ _ _ _ _ _ Hscan). apply In_range. exact Hc.
Qed.

Lemma decode_loop_rows (predictions : list float) (num_classes : Z) (steps : list Z) :
  forall st st',
    decode_loop predictions num_classes steps st = Some st' ->
    forall i, In i steps -> exists m, argmax_row predictions num_classes i = Some m.
Proof.
  induction steps as [|i steps IH]; intros st st' H i' Hin; [destruct Hin|].
  cbn [decode_loop] in H.
  destruct (argmax_row predictions num_classes i) as [m|] eqn:Hm; [|discriminate].
  cbn [obind] in H.
  destruct (ctc_step st m) as [st1|]; [|discriminate].
  cbn [obind] in H. destruct Hin as [<-|Hin].
  - exists m. exact Hm.
  - exact (IH _ _ H i' Hin).
Qed.

Lemma read_inside (predictions : list float) (idx : Z) (v : float) :
  read predictions idx = Some v -> 0 <= idx < Z.of_nat (List.length predictions).
Proof.
  unfold read. destruct (idx <? 0) eqn:E; [discriminate|].
  intros H. assert (nth_error predictions (Z.to_nat idx) <> None) as Hn by congruence.
  apply nth_error_Some in Hn. lia.
Qed.

(** X1.  The decoder reads inside the grid, and inside the table: on a
    grid of at least [seq_len * num_classes] cells, with at least the
    blank column, it returns a string. *)
Theorem decode_returns_on_full_grid :
  forall predictions seq_len num_classes,
    1 <= num_classes ->
    seq_len * num_classes <= Z.of_nat (List.length predictions) ->
    exists s, ctcBeamSearchDecode predictions seq_len num_classes = Some s.
Proof.
  intros predictions seq_len num_classes Hn Hlen.
  exact (ctcBeamSearchDecode_defined predictions seq_len num_classes Hn Hlen).
Qed.

Lemma decode_returns_on_full_grid_witness :
  exists s, ctcBeamSearchDecode (grid_of 37 [11; 0; 11]) 3 37 = Some s.
Proof.
  apply decode_returns_on_full_grid; [lia|]. vm_compute. discriminate.
Defined.

(** X2.  The decoder reads every cell of the [seq_len] rows, whatever
    their values: with at least one timestep and one column, it returns
    only if the grid has [seq_len * num_classes] cells. *)
Theorem decode_needs_full_grid :
  forall predictions seq_len num_classes s,
    1 <= num_classes -> 1 <= seq_len ->
    ctcBeamSearchDecode predictions seq_len num_classes = Some s ->
    seq_len * num_classes <= Z.of_nat (List.length predictions).
Proof.
  intros predictions seq_len num_classes s Hn Hl H.
  unfold ctcBeamSearchDecode in H.
  destruct (decode_loop predictions num_classes (range 0 seq_len) (EmptyString, -1))
    as [st|] eqn:Hloop; [|discriminate].
  destruct (decode_loop_rows _ _ _ _ _ Hloop (seq_len - 1)) as [m Hm].
  { apply In_range. lia. }
  destruct (argmax_row_reads _ _ _ _ Hm (num_classes - 1)) as [pc Hpc].
  { unfold scanned. lia. }
  apply read_inside in Hpc. lia.
Qed.

Lemma decode_needs_full_grid_witness :
  3 * 37 <= Z.of_nat (List.length (grid_of 37 [11; 0; 11])).
Proof.
  apply (decode_needs_full_grid _ 3 37 "AA"%string); [lia|lia|].
  vm_compute. reflexivity.
Defined.

(** ** The decoder: what it can return *)

Lemma length_append (a b : string) :
  String.length (a ++ b) = (String.length a + String.length b)%nat.
Proof.
  induction a as [|x a IH]; cbn; [reflexivity|]. rewrite IH. reflexivity.
Qed.

Lemma chars_append (a b : string) :
  list_ascii_of_string (a ++ b) = list_ascii_of_string a ++ list_ascii_of_string b.
Proof.
  induction a as [|x a IH]; cbn; [reflexivity|]. rewrite IH. reflexivity.
Qed.

(** One timestep appends nothing or one character of the table, and
    leaves the class of the timestep as the previous class. *)
Lemma ctc_step_cases (result : string) (prev_class max_class : Z) (st' : string * Z) :
  ctc_step (result, prev_class) max_class = Some st' ->
  snd st' = max_class /\
  (fst st' = result \/
   exists ch,
     fst st' = (result ++ String ch EmptyString)%string /\
     max_class <> 0 /\ max_class <> prev_class /\
     max_class <= NUM_CHARACTERS /\ CHARACTERS_at (max_class - 1) = Some ch).
Proof.
  unfold ctc_step.
  destruct (negb (max_class =? 0) && negb (max_class =? prev_class)) eqn:E.
  - destruct (max_class - 1 <? NUM_CHARACTERS) eqn:E1.
    + destruct (CHARACTERS_at (max_class - 1)) as [ch|] eqn:Hch; [|discriminate].
      cbn [obind]. intros [= <-]. split; [reflexivity|]. right. exists ch.
      apply andb_prop in E. destruct E as [Ea Eb].
      cbn [fst]. repeat split; try lia. 
    + cbn [obind]. intros [= <-]. split; [reflexivity|]. left. reflexivity.
  - cbn [obind]. intros [= <-]. split; [reflexivity|]. left. reflexivity.
Qed.

Lemma decode_loop_invariant (predictions : list float) (num_classes : Z)
    (Inv : string -> nat -> Prop) :
  (forall r k, Inv r k -> Inv r (S k)) ->
  (forall r k ch, Inv r k -> emitted_by num_classes ch ->
     Inv (r ++ String ch EmptyString)%string (S k)) ->
  forall steps st st' k,
    decode_loop predictions num_classes steps st = Some st' ->
    Inv (fst st) k ->
    Inv (fst st') (k + List.length steps)%nat.
Proof.
  intros Hkeep Hemit.
  induction steps as [|i steps IH]; intros st st' k H HI; cbn [decode_loop] in H.
  - injection H as <-. cbn. rewrite Nat.add_0_r. exact HI.
  - destruct (argmax_row predictions num_classes i) as [m|] eqn:Hm; [|discriminate].
    cbn [obind] in H.
    destruct (ctc_step st m) as [st1|] eqn:Hst; [|discriminate].
    cbn [obind] in H. destruct st as [result prev_class].
    destruct (ctc_step_cases _ _ _ _ Hst) as [_ Hcase].
    cbn [List.length]. rewrite Nat.add_succ_r, <- Nat.add_succ_l.
    apply (IH _ _ _ H). cbn [fst] in HI.
    destruct Hcase as [->|[ch [-> [H0 [_ [Hle Hch]]]]]].
    + apply Hkeep. exact HI.
    + apply Hemit; [exact HI|]. exists m. split; [|split; assumption].
      destruct (argmax_row_post _ _ _ _ Hm) as [[->|Hs] _]; [contradiction|exact Hs].
Qed.

(** X3.  Each timestep emits at most one character: the decoded string
    has at most [seq_len] characters, and none when [seq_len] is not
    positive. *)
Theorem decode_length_bound :
  forall predictions seq_len num_classes s,
    ctcBeamSearchDecode predictions seq_len num_classes = Some s ->
    Z.of_nat (String.length s) <= Z.max 0 seq_len.
Proof.
  intros predictions seq_len num_classes s H. unfold ctcBeamSearchDecode in H.
  destruct (decode_loop predictions num_classes (range 0 seq_len) (EmptyString, -1))
    as [st|] eqn:Hloop; [|discriminate].
  injection H as <-.
  pose proof (decode_loop_invariant predictions num_classes
                (fun r k => (String.length r <= k)%nat)) as Hinv.
  cbv beta in Hinv.
  specialize (Hinv ltac:(intros; lia)).
  assert (forall r k ch,
             (String.length r <= k)%nat -> emitted_by num_classes ch ->
             (String.length (r ++ String ch EmptyString) <= S k)%nat) as Hemit.
  { intros r k ch Hr _. rewrite length_append. cbn. lia. }
  specialize (Hinv Hemit _ _ _ 0%nat Hloop ltac:(cbn; lia)).
  rewrite range_length in Hinv. lia.
Qed.

Lemma decode_length_bound_witness :
  Z.of_nat (String.length "AA") <= Z.max 0 3.
Proof.
  apply (decode_length_bound (grid_of 37 [11; 0; 11]) 3 37). vm_compute. reflexivity.
Defined.

(** X4.  The decoder returns characters of its table only, and only those
    of the classes below [num_classes]: every character of the decoded
    string is [CHARACTERS[c - 1]] for a class [1 <= c < num_classes],
    [c <= 36].  With the blank column alone the string is empty. *)
Theorem decode_alphabet :
  forall predictions seq_len num_classes s,
    ctcBeamSearchDecode predictions seq_len num_classes = Some s ->
    Forall (emitted_by num_classes) (list_ascii_of_string s) /\
    (num_classes <= 1 -> s = EmptyString).
Proof.
  intros predictions seq_len num_classes s H. unfold ctcBeamSearchDecode in H.
  destruct (decode_loop predictions num_classes (range 0 seq_len) (EmptyString, -1))
    as [st|] eqn:Hloop; [|discriminate].
  injection H as <-.
  pose proof (decode_loop_invariant predictions num_classes
                (fun r _ => Forall (emitted_by num_classes) (list_ascii_of_string r)))
    as Hinv.
  cbv beta in Hinv.
  specialize (Hinv ltac:(intros; assumption)).
  assert (forall r (k : nat) ch,
             Forall (emitted_by num_classes) (list_ascii_of_string r) ->
             emitted_by num_classes ch ->
             Forall (emitted_by num_classes)
               (list_ascii_of_string (r ++ String ch EmptyString))) as Hemit.
  { intros r _ ch Hr Hch. rewrite chars_append. apply Forall_app. split; [exact Hr|].
    cbn. constructor; [exact Hch|constructor]. }
  specialize (Hinv Hemit _ _ _ 0%nat Hloop ltac:(constructor)).
  split; [exact Hinv|].
  intros Hn. destruct (fst st) as [|ch r]; [reflexivity|].
  cbn in Hinv. inversion Hinv as [|? ? [c [Hc _]] _]. lia.
Qed.

Lemma decode_alphabet_witness :
  Forall (emitted_by 37) (list_ascii_of_string "AA") /\
  (37 <= 1 -> "AA"%string = EmptyString).
Proof.
  apply (decode_alphabet (grid_of 37 [11; 0; 11]) 3 37). vm_compute. reflexivity.
Defined.

(** ** The decoder: how decodings compose *)

Lemma labels_nonneg (predictions : list float) (num_classes : Z) (steps : list Z) :
  forall ls,
    labels_of predictions num_classes steps = Some ls -> Forall (fun l => 0 <= l) ls.
Proof.
  induction steps as [|i steps IH]; intros ls H; cbn [labels_of] in H.
  - injection H as <-. constructor.
  - destruct (argmax_row predictions num_classes i) as [m|] eqn:Hm; [|discriminate].
    cbn [obind] in H.
    destruct (labels_of predictions num_classes steps) as [ls'|]; [|discriminate].
    injection H as <-. constructor; [|apply IH; reflexivity].
    destruct (argmax_row_post _ _ _ _ Hm) as [[->|Hs] _]; lia.
Qed.

Lemma collapse_app (l1 l2 : list Z) :
  forall st, collapse (l1 ++ l2) st = obind (collapse l1 st) (collapse l2).
Proof.
  induction l1 as [|l l1 IH]; intros st; cbn [collapse app].
  - reflexivity.
  - destruct (ctc_step st l) as [st1|]; cbn [obind]; [apply IH|reflexivity].
Qed.

Lemma append_assoc (a b c : string) : ((a ++ b) ++ c = a ++ (b ++ c))%string.
Proof.
  induction a as [|x a IH]; cbn; [reflexivity|]. rewrite IH. reflexivity.
Qed.

(** What a run of timesteps appends does not depend on what was decoded
    before. *)
Lemma collapse_prefix (ls : list Z) :
  forall r r0 prev_class d prev_class',
    collapse ls (r0, prev_class) = Some (d, prev_class') ->
    collapse ls ((r ++ r0)%string, prev_class) = Some ((r ++ d)%string, prev_class').
Proof.
  induction ls as [|l ls IH]; intros r r0 prev_class d prev_class' H; cbn [collapse] in *.
  - injection H as <- <-. reflexivity.
  - destruct (ctc_step (r0, prev_class) l) as [[r1 p1]|] eqn:Hst; [|discriminate].
    cbn [obind] in H.
    assert (ctc_step ((r ++ r0)%string, prev_class) l = Some ((r ++ r1)%string, p1)) as ->.
    { revert Hst. unfold ctc_step.
      destruct (negb (l =? 0) && negb (l =? prev_class)).
      - destruct (l - 1 <? NUM_CHARACTERS).
        + destruct (CHARACTERS_at (l - 1)) as [ch|]; [|discriminate].
          cbn [obind]. intros [= <- <-]. rewrite append_assoc. reflexivity.
        + cbn [obind]. intros [= <- <-]. reflexivity.
      - cbn [obind]. intros [= <- <-]. reflexivity. }
    cbn [obind]. apply IH. exact H.
Qed.

(** After a blank the decoder is as at its start. *)
Lemma collapse_start (ls : list Z) (r : string) :
  Forall (fun l => 0 <= l) ls ->
  option_map fst (collapse ls (r, 0)) = option_map fst (collapse ls (r, -1)).
Proof.
  intros H. destruct H as [|l ls Hl _]; [reflexivity|].
  cbn [collapse]. unfold ctc_step.
  assert ((l =? -1) = false) as -> by lia.
  destruct (l =? 0); reflexivity.
Qed.

Lemma collapse_defined (ls : list Z) :
  Forall (fun l => 0 <= l) ls ->
  forall st, exists st', collapse ls st = Some st'.
Proof.
  induction 1 as [|l ls Hl _ IH]; intros st; cbn [collapse].
  - exists st. reflexivity.
  - destruct (ctc_step_defined st l Hl) as [st1 ->]. cbn [obind]. apply IH.
Qed.

(** X5.  Decoding composes over a blank: if the argmax labels of a grid
    are those of a first grid, a blank, and those of a second grid, its
    decoding is the concatenation of the decodings of the two grids. *)
Theorem decode_concat_over_blank :
  forall predictions num_classes l1 l2 predictions1 num_classes1 predictions2 num_classes2,
    has_labels predictions num_classes (l1 ++ 0 :: l2) ->
    has_labels predictions1 num_classes1 l1 ->
    has_labels predictions2 num_classes2 l2 ->
    exists s1 s2,
      ctcBeamSearchDecode predictions1 (Z.of_nat (List.length l1)) num_classes1 = Some s1 /\
      ctcBeamSearchDecode predictions2 (Z.of_nat (List.length l2)) num_classes2 = Some s2 /\
      ctcBeamSearchDecode predictions (Z.of_nat (List.length (l1 ++ 0 :: l2))) num_classes
      = Some (s1 ++ s2)%string.
Proof.
  intros predictions num_classes l1 l2 predictions1 num_classes1 predictions2 num_classes2
    H H1 H2.
  rewrite (decode_of_labels _ _ _ H), (decode_of_labels _ _ _ H1),
    (decode_of_labels _ _ _ H2).
  pose proof (labels_nonneg _ _ _ _ H1) as Hn1.
  pose proof (labels_nonneg _ _ _ _ H2) as Hn2.
  destruct (collapse_defined l1 Hn1 (EmptyString, -1)) as [[s1 p1] Hc1].
  destruct (collapse_defined l2 Hn2 (EmptyString, 0)) as [[s2 p2] Hc2].
  exists s1, s2. rewrite Hc1. split; [reflexivity|]. split.
  - rewrite <- (collapse_start l2 EmptyString Hn2), Hc2. reflexivity.
  - rewrite collapse_app, Hc1. cbn [obind collapse ctc_step].
    rewrite Z.eqb_refl. cbn [negb andb obind].
    pose proof (collapse_prefix l2 s1 EmptyString 0 s2 p2 Hc2) as Hp.
    rewrite append_empty in Hp. rewrite Hp. reflexivity.
Qed.

Lemma decode_concat_over_blank_witness :
  exists s1 s2,
    ctcBeamSearchDecode (grid_of 37 [11; 11]) 2 37 = Some s1 /\
    ctcBeamSearchDecode (grid_of 37 [11; 12]) 2 37 = Some s2 /\
    ctcBeamSearchDecode (grid_of 37 [11; 11; 0; 11; 12]) 5 37 = Some (s1 ++ s2)%string.
Proof.
  apply (decode_concat_over_blank (grid_of 37 [11; 11; 0; 11; 12]) 37 [11; 11] [11; 12]);
    vm_compute; reflexivity.
Defined.

Lemma collapse_stutter (ls : list Z) :
  forall st, collapse (stutter ls) st = collapse ls st.
Proof.
  induction ls as [|l ls IH]; intros st; cbn [stutter collapse]; [reflexivity|].
  destruct (ctc_step st l) as [[r1 p1]|] eqn:Hst; cbn [obind]; [|reflexivity].
  destruct st as [r p]. destruct (ctc_step_cases _ _ _ _ Hst) as [Hp _].
  cbn [snd] in Hp. subst p1.
  unfold ctc_step at 1. rewrite Z.eqb_refl, andb_false_r. cbn [obind]. apply IH.
Qed.

Lemma stutter_length (ls : list Z) : List.length (stutter ls) = (2 * List.length ls)%nat.
Proof.
  induction ls as [|l ls IH]; cbn [stutter List.length]; [reflexivity|]. rewrite IH. lia.
Qed.

(** X6.  Repeated timesteps collapse: a grid in which every timestep of
    another grid occurs twice in a row decodes to the same string. *)
Theorem decode_stutter :
  forall predictions num_classes ls predictions' num_classes',
    has_labels predictions num_classes ls ->
    has_labels predictions' num_classes' (stutter ls) ->
    ctcBeamSearchDecode predictions' (2 * Z.of_nat (List.length ls)) num_classes'
    = ctcBeamSearchDecode predictions (Z.of_nat (List.length ls)) num_classes.
Proof.
  intros predictions num_classes ls predictions' num_classes' H H'.
  replace (2 * Z.of_nat (List.length ls)) with (Z.of_nat (List.length (stutter ls)))
    by (rewrite stutter_length; lia).
  rewrite (decode_of_labels _ _ _ H), (decode_of_labels _ _ _ H'), collapse_stutter.
  reflexivity.
Qed.

Lemma decode_stutter_witness :
  ctcBeamSearchDecode (grid_of 37 [11; 11; 0; 0; 11; 11; 12; 12]) 8 37
  = ctcBeamSearchDecode (grid_of 37 [11; 0; 11; 12]) 4 37.
Proof.
  apply (decode_stutter (grid_of 37 [11; 0; 11; 12]) 37 [11; 0; 11; 12]
           (grid_of 37 [11; 11; 0; 0; 11; 11; 12; 12]) 37);
    vm_compute; reflexivity.
Defined.

(** ** The decoder: NaN *)

Lemma SFltb_not_nan (a b : float) :
  SFltb a b = true -> Float32.is_nan a = false /\ Float32.is_nan b = false.
Proof.
  destruct a, b; cbn; try discriminate; intros _; split; reflexivity.
Qed.

(** X7.  A NaN is never greater than the maximum so far, and nothing is
    greater than a NaN: in a row inside the grid, a NaN in the blank
    column makes the blank the argmax whatever the other columns hold, and
    a class other than the blank is selected only with a probability that
    is not a NaN. *)
Theorem nan_is_never_selected :
  forall predictions num_classes i,
    0 <= i -> 1 <= num_classes ->
    (i + 1) * num_classes <= Z.of_nat (List.length predictions) ->
    (prob predictions i num_classes 0 = Some S754_nan ->
     argmax_row predictions num_classes i = Some 0) /\
    (forall m, argmax_row predictions num_classes i = Some m -> m <> 0 ->
       exists pm, prob predictions i num_classes m = Some pm /\
                  Float32.is_nan pm = false).
Proof.
  intros predictions num_classes i Hi Hn Hlen.
  assert (forall m, argmax_row predictions num_classes i = Some m -> m <> 0 ->
            exists p0 pm,
              prob predictions i num_classes 0 = Some p0 /\
              prob predictions i num_classes m = Some pm /\
              SFltb p0 pm = true) as Hsel.
  { intros m Hm Hm0. unfold argmax_row in Hm.
    destruct (read predictions (i * num_classes)) as [p0|] eqn:Hp0; [|discriminate].
    cbn [obind] in Hm.
    destruct (argmax_scan predictions i num_classes (range 1 num_classes) 0 p0)
      as [[m' p]|] eqn:Hscan; [|discriminate].
    cbn in Hm. injection Hm as ->.
    destruct (argmax_scan_post _ _ _ _ _ _ _ _
                (range_sorted 0 1 num_classes ltac:(lia)) Hscan)
      as [[[-> _]|[_ [Hpm Hgt]]] _ _ _]; [contradiction|].
    exists p0, p. unfold prob at 1. rewrite Z.add_0_r. repeat split; assumption. }
  split.
  - intros Hnan.
    destruct (argmax_row_defined predictions num_classes i Hi Hn Hlen) as [m [Hm _]].
    destruct (Z.eq_dec m 0) as [->|Hm0]; [exact Hm|].
    destruct (Hsel m Hm Hm0) as [p0 [pm [Hp0 [_ Hlt]]]].
    rewrite Hnan in Hp0. injection Hp0 as <-. cbn in Hlt. discriminate.
  - intros m Hm Hm0. destruct (Hsel m Hm Hm0) as [p0 [pm [_ [Hpm Hlt]]]].
    exists pm. split; [exact Hpm|]. apply (SFltb_not_nan _ _ Hlt).
Qed.

Lemma nan_is_never_selected_witness :
  argmax_row [S754_nan; Float32.one; Float32.zero] 3 0 = Some 0.
Proof.
  apply (nan_is_never_selected [S754_nan; Float32.one; Float32.zero] 3 0);
    cbn; try lia; reflexivity.
Defined.

(** ** Preprocessing: further properties *)

Lemma pixel_index_bounds (x y : Z) :
  0 <= x < OCR_INPUT_WIDTH -> 0 <= y < OCR_INPUT_HEIGHT ->
  0 <= pixel_index x y < OCR_INPUT_WIDTH * OCR_INPUT_HEIGHT.
Proof. unfold pixel_index, OCR_INPUT_WIDTH, OCR_INPUT_HEIGHT. lia. Qed.

(** X8.  The preprocessing writes the first 128 x 64 floats of the buffer
    and nothing else: on a valid frame it returns a buffer of the same
    length whose elements from index 8192 on are those it was given. *)
Theorem preprocessImage_keeps_the_rest :
  forall fb input_buffer,
    fb_valid fb ->
    OCR_INPUT_WIDTH * OCR_INPUT_HEIGHT <= Z.of_nat (List.length input_buffer) ->
    exists out,
      preprocessImage fb input_buffer = Some out /\
      List.length out = List.length input_buffer /\
      forall j, OCR_INPUT_WIDTH * OCR_INPUT_HEIGHT <= Z.of_nat j ->
        nth_error out j = nth_error input_buffer j.
Proof.
  intros fb input_buffer Hfb Hlen.
  destruct (preprocessImage_samples fb Hfb input_buffer Hlen) as [out [Hout [Hl _]]].
  exists out. split; [exact Hout|]. split; [exact Hl|].
  destruct (preprocess_rows_spec _ _ _ _ Hout) as [_ [_ [Hother _]]].
  intros j Hj. apply Hother. intros x y Hy Hx. apply In_range in Hy.
  pose proof (pixel_index_bounds x y Hx Hy). lia.
Qed.

Lemma preprocessImage_keeps_the_rest_witness :
  exists out,
    preprocessImage short_frame (white_buffer ++ [S754_nan]) = Some out /\
    nth_error out (Z.to_nat 8192) = Some S754_nan.
Proof.
  destruct (preprocessImage_keeps_the_rest short_frame (white_buffer ++ [S754_nan]))
    as [out [Hout [_ Hrest]]].
  - unfold fb_valid. cbn. lia.
  - unfold white_buffer. rewrite length_app, repeat_length. cbn. lia.
  - exists out. split; [exact Hout|]. rewrite Hrest by (cbn; lia).
    unfold white_buffer. rewrite nth_error_app2 by (rewrite repeat_length; cbn; lia).
    rewrite repeat_length. vm_compute. reflexivity.
Defined.

(** X9.  The preprocessing cannot do with less: it returns only on a
    buffer of at least 128 x 64 floats. *)
Theorem preprocessImage_needs_room :
  forall fb input_buffer out,
    preprocessImage fb input_buffer = Some out ->
    OCR_INPUT_WIDTH * OCR_INPUT_HEIGHT <= Z.of_nat (List.length input_buffer).
Proof.
  intros fb input_buffer out H.
  destruct (preprocess_rows_spec _ _ _ _ H) as [_ [Hidx _]].
  specialize (Hidx (OCR_INPUT_WIDTH - 1) (OCR_INPUT_HEIGHT - 1)).
  unfold pixel_index, OCR_INPUT_WIDTH, OCR_INPUT_HEIGHT in *.
  assert (In (64 - 1) (range 0 64)) as Hy by (apply In_range; lia).
  specialize (Hidx Hy ltac:(lia)). lia.
Qed.

Lemma preprocessImage_needs_room_witness :
  OCR_INPUT_WIDTH * OCR_INPUT_HEIGHT <= Z.of_nat (List.length white_buffer).
Proof.
  destruct (preprocessImage_samples short_frame) with (input_buffer := white_buffer)
    as [out [Hout _]].
  - unfold fb_valid. cbn. lia.
  - unfold white_buffer. rewrite repeat_length. lia.
  - exact (preprocessImage_needs_room _ _ _ Hout).
Defined.

(** What a pixel is set to: zero, or a source byte divided by 255. *)
Lemma sample_cases (fb : camera_fb_t) (x y : Z) (v : float) :
  sample fb x y = Some v ->
  (v = Float32.zero /\ len fb <= to_size_t (src_index fb x y)) \/
  (exists b,
     nth_error (buf fb) (Z.to_nat (src_index fb x y)) = Some b /\
     v = normalised (Z.of_N (Byte.to_N b)) /\
     0 <= src_index fb x y /\ to_size_t (src_index fb x y) < len fb).
Proof.
  unfold sample, read_byte.
  destruct (to_size_t (src_index fb x y) <? len fb) eqn:E.
  - destruct (src_index fb x y <? 0) eqn:E0; [discriminate|].
    destruct (nth_error (buf fb) (Z.to_nat (src_index fb x y))) as [b|]; [|discriminate].
    cbn. intros [= <-]. right. exists b. repeat split; try reflexivity; lia.
  - intros [= <-]. left. split; [reflexivity|lia].
Qed.

Lemma normalised_range (b : Byte.byte) :
  Float32.le Float32.zero (normalised (Z.of_N (Byte.to_N b))) = true /\
  Float32.le (normalised (Z.of_N (Byte.to_N b))) Float32.one = true.
Proof. destruct b; vm_compute; split; reflexivity. Qed.

(** X10.  "Normalize to [0, 1]": on a valid frame every one of the
    128 x 64 output pixels is a float between 0.0 and 1.0. *)
Theorem preprocessImage_output_in_unit_interval :
  forall fb input_buffer,
    fb_valid fb ->
    OCR_INPUT_WIDTH * OCR_INPUT_HEIGHT <= Z.of_nat (List.length input_buffer) ->
    exists out,
      preprocessImage fb input_buffer = Some out /\
      forall x y, 0 <= x < OCR_INPUT_WIDTH -> 0 <= y < OCR_INPUT_HEIGHT ->
        exists v,
          nth_error out (Z.to_nat (pixel_index x y)) = Some v /\
          Float32.le Float32.zero v = true /\
          Float32.le v Float32.one = true.
Proof.
  intros fb input_buffer Hfb Hlen.
  destruct (preprocessImage_samples fb Hfb input_buffer Hlen) as [out [Hout [_ Hval]]].
  exists out. split; [exact Hout|].
  intros x y Hx Hy. destruct (Hval x y Hx Hy) as [v [Hv Hnth]].
  exists v. split; [exact Hnth|].
  destruct (sample_cases _ _ _ _ Hv) as [[-> _]|[b [_ [-> _]]]].
  - split; reflexivity.
  - apply normalised_range.
Qed.

Lemma preprocessImage_output_in_unit_interval_witness :
  exists out,
    preprocessImage short_frame white_buffer = Some out /\
    exists v,
      nth_error out (Z.to_nat (pixel_index 1 0)) = Some v /\
      Float32.le Float32.zero v = true /\
      Float32.le v Float32.one = true.
Proof.
  destruct (preprocessImage_output_in_unit_interval short_frame white_buffer)
    as [out [Hout Hpix]].
  - unfold fb_valid. cbn. lia.
  - unfold white_buffer. rewrite repeat_length. lia.
  - exists out. split; [exact Hout|].
    apply Hpix; unfold OCR_INPUT_WIDTH, OCR_INPUT_HEIGHT; lia.
Defined.

(** X11.  A frame that holds its [width * height] bytes, and whose
    dimensions are small enough for the scaled coordinates [127 * width]
    and [63 * height] to stay in the range of [int], is subsampled to the
    nearest pixel above and to the left, and the zero of the [else] branch
    is never stored: the output pixel [(x, y)] is the normalised source
    pixel of column [x * width / 128] and row [y * height / 64], which
    are inside the frame. *)
Theorem preprocessImage_nearest_neighbour :
  forall fb input_buffer,
    fb_valid fb ->
    len fb = width fb * height fb ->
    1 <= width fb -> 1 <= height fb ->
    (OCR_INPUT_WIDTH - 1) * width fb < 2 ^ 31 ->
    (OCR_INPUT_HEIGHT - 1) * height fb < 2 ^ 31 ->
    OCR_INPUT_WIDTH * OCR_INPUT_HEIGHT <= Z.of_nat (List.length input_buffer) ->
    exists out,
      preprocessImage fb input_buffer = Some out /\
      forall x y, 0 <= x < OCR_INPUT_WIDTH -> 0 <= y < OCR_INPUT_HEIGHT ->
        let src_x := x * width fb / OCR_INPUT_WIDTH in
        let src_y := y * height fb / OCR_INPUT_HEIGHT in
        0 <= src_x < width fb /\
        0 <= src_y < height fb /\
        exists b,
          nth_error (buf fb) (Z.to_nat (src_y * width fb + src_x)) = Some b /\
          nth_error out (Z.to_nat (pixel_index x y))
          = Some (normalised (Z.of_N (Byte.to_N b))).
Proof.
  intros fb input_buffer Hfb Hfull Hw Hh Hwr Hhr Hlen.
  destruct (preprocessImage_samples fb Hfb input_buffer Hlen) as [out [Hout [_ Hval]]].
  exists out. split; [exact Hout|].
  intros x y Hx Hy src_x src_y.
  destruct (Hval x y Hx Hy) as [v [Hv Hnth]].
  destruct Hfb as [_ Hmax].
  unfold OCR_INPUT_WIDTH, OCR_INPUT_HEIGHT in *.
  assert (0 <= src_x < width fb) as Hsx.
  { unfold src_x. split.
    - apply Z.div_pos; nia.
    - apply Z.div_lt_upper_bound; nia. }
  assert (0 <= src_y < height fb) as Hsy.
  { unfold src_y. split.
    - apply Z.div_pos; nia.
    - apply Z.div_lt_upper_bound; nia. }
  assert (src_index fb x y = src_y * width fb + src_x) as Hidx.
  { unfold src_index, int_add, int_mul, OCR_INPUT_WIDTH, OCR_INPUT_HEIGHT.
    rewrite (to_int_small (width fb)) by lia.
    rewrite (to_int_small (height fb)) by lia.
    rewrite (to_int_small (x * width fb)) by nia.
    rewrite (to_int_small (y * height fb)) by nia.
    rewrite !Z.quot_div_nonneg by nia.
    fold src_x. fold src_y.
    rewrite (to_int_small (src_y * width fb)) by nia.
    apply to_int_small. nia. }
  split; [exact Hsx|]. split; [exact Hsy|].
  destruct (sample_cases _ _ _ _ Hv) as [[_ Hout_of]|[b [Hb' [-> _]]]].
  - rewrite Hidx in Hout_of. unfold to_size_t in Hout_of.
    rewrite Z.mod_small in Hout_of by nia. nia.
  - exists b. rewrite <- Hidx. split; [exact Hb'|exact Hnth].
Qed.

Lemma preprocessImage_nearest_neighbour_witness :
  exists out,
    preprocessImage small_frame white_buffer = Some out /\
    nth_error out (Z.to_nat (pixel_index 127 63)) = Some (normalised 0).
Proof.
  destruct (preprocessImage_nearest_neighbour small_frame white_buffer)
    as [out [Hout Hpix]].
  - unfold fb_valid. cbn. lia.
  - reflexivity.
  - cbn. lia.
  - cbn. lia.
  - cbn. lia.
  - cbn. lia.
  - unfold white_buffer. rewrite repeat_length. lia.
  - exists out. split; [exact Hout|].
    destruct (Hpix 127 63) as [_ [_ [b [Hb Hnth]]]];
      [unfold OCR_INPUT_WIDTH; lia|unfold OCR_INPUT_HEIGHT; lia|].
    rewrite Hnth. vm_compute in Hb. injection Hb as <-. reflexivity.
Defined.

(** X12.  On a frame of the size of the output, 128 x 64, nothing is
    resized: output pixel [k] is source byte [k] divided by 255. *)
Theorem preprocessImage_same_size :
  forall fb input_buffer,
    fb_valid fb ->
    width fb = OCR_INPUT_WIDTH -> height fb = OCR_INPUT_HEIGHT ->
    len fb = OCR_INPUT_WIDTH * OCR_INPUT_HEIGHT ->
    OCR_INPUT_WIDTH * OCR_INPUT_HEIGHT <= Z.of_nat (List.length input_buffer) ->
    exists out,
      preprocessImage fb input_buffer = Some out /\
      forall k, (k < Z.to_nat (OCR_INPUT_WIDTH * OCR_INPUT_HEIGHT))%nat ->
        exists b,
          nth_error (buf fb) k = Some b /\
          nth_error out k = Some (normalised (Z.of_N (Byte.to_N b))).
Proof.
  intros fb input_buffer Hfb Hw Hh Hfull Hlen.
  destruct (preprocessImage_samples fb Hfb input_buffer Hlen) as [out [Hout [_ Hval]]].
  exists out. split; [exact Hout|].
  intros k Hk.
  set (x := Z.of_nat k mod OCR_INPUT_WIDTH).
  set (y := Z.of_nat k / OCR_INPUT_WIDTH).
  assert (0 <= x < OCR_INPUT_WIDTH) as Hx.
  { apply Z.mod_pos_bound. reflexivity. }
  assert (0 <= y < OCR_INPUT_HEIGHT) as Hy.
  { unfold y, OCR_INPUT_WIDTH, OCR_INPUT_HEIGHT in *. split.
    - apply Z.div_pos; lia.
    - apply Z.div_lt_upper_bound; lia. }
  assert (Z.of_nat k = pixel_index x y) as Hk'.
  { unfold pixel_index, x, y. rewrite (Z.div_mod (Z.of_nat k) OCR_INPUT_WIDTH) at 1.
    - lia.
    - discriminate. }
  assert (src_index fb x y = pixel_index x y) as Hidx.
  { unfold src_index, int_add, int_mul. rewrite Hw, Hh. unfold pixel_index.
    rewrite (to_int_small OCR_INPUT_WIDTH) by (unfold OCR_INPUT_WIDTH; lia).
    rewrite (to_int_small OCR_INPUT_HEIGHT) by (unfold OCR_INPUT_HEIGHT; lia).
    rewrite (to_int_small (x * OCR_INPUT_WIDTH))
      by (unfold OCR_INPUT_WIDTH in *; lia).
    rewrite (to_int_small (y * OCR_INPUT_HEIGHT))
      by (unfold OCR_INPUT_HEIGHT in *; lia).
    rewrite !Z.quot_div_nonneg by (unfold OCR_INPUT_WIDTH, OCR_INPUT_HEIGHT in *; lia).
    rewrite !Z.div_mul by discriminate.
    rewrite (to_int_small (y * OCR_INPUT_WIDTH))
      by (unfold OCR_INPUT_WIDTH, OCR_INPUT_HEIGHT in *; lia).
    apply to_int_small. unfold OCR_INPUT_WIDTH, OCR_INPUT_HEIGHT in *. lia. }
  destruct (Hval x y Hx Hy) as [v [Hv Hnth]].
  rewrite <- Hk', Nat2Z.id in Hnth.
  destruct (sample_cases _ _ _ _ Hv) as [[_ Hout_of]|[b [Hb [-> _]]]].
  - rewrite Hidx, <- Hk' in Hout_of. unfold to_size_t in Hout_of.
    rewrite Z.mod_small in Hout_of; unfold OCR_INPUT_WIDTH, OCR_INPUT_HEIGHT in *; lia.
  - exists b. rewrite Hidx, <- Hk', Nat2Z.id in Hb. split; [exact Hb|exact Hnth].
Qed.

Lemma preprocessImage_same_size_witness :
  exists out,
    preprocessImage full_frame white_buffer = Some out /\
    nth_error out 0 = Some (normalised 128).
Proof.
  destruct (preprocessImage_same_size full_frame white_buffer) as [out [Hout Hpix]].
  - unfold fb_valid, full_frame. cbn [buf len width height].
    rewrite repeat_length. unfold OCR_INPUT_WIDTH, OCR_INPUT_HEIGHT. lia.
  - reflexivity.
  - reflexivity.
  - reflexivity.
  - unfold white_buffer. rewrite repeat_length. lia.
  - exists out. split; [exact Hout|].
    destruct (Hpix 0%nat) as [b [Hb Hnth]].
    + unfold OCR_INPUT_WIDTH, OCR_INPUT_HEIGHT. lia.
    + rewrite Hnth. unfold full_frame in Hb. cbn [buf] in Hb.
      change (nth_error (Byte.x80 :: repeat Byte.x80 (Z.to_nat 8192 - 1)) 0 = Some b) in Hb.
      injection Hb as <-. reflexivity.
Defined.

(** ** The main loop: further properties *)

(** X13.  Without a frame the iteration reports the failed capture and
    waits one second: no stage is called, nothing is given back to the
    driver, and [millis()] is not read (the state of the run ends with its
    count of clock readings at zero). *)
Theorem no_frame_no_work :
  forall stage1 stage2 stage3 env,
    fb_get env = None ->
    snd (loop_with stage1 stage2 stage3 env start)
    = {| trace := [FbGet; SerialPrint MsgCaptureFailed; Delay 1000];
         millis_calls := 0 |}.
Proof.
  intros stage1 stage2 stage3 env H. unfold loop_with, bind, emit.
  cbn. rewrite H. reflexivity.
Qed.

Lemma no_frame_no_work_witness :
  snd (loop {| fb_get := None; clock := fun _ => 0; free_heap := 0 |} start)
  = {| trace := [FbGet; SerialPrint MsgCaptureFailed; Delay 1000];
       millis_calls := 0 |}.
Proof.
  apply no_frame_no_work. reflexivity.
Defined.

(** X14.  With the placeholder stages of the sketch the gate never
    closes: whatever the frame holds, [loop] calls the three stages in
    order and reports the plate ABC1234. *)
Theorem placeholder_loop_reports_ABC1234 :
  forall env fb,
    fb_get env = Some fb ->
    let t := run (loop env) in
    calls t = [Detection; PolygonModel; Ocr] /\
    In (SerialPrint (MsgLicensePlate "ABC1234")) t /\
    ~ In (SerialPrint MsgNoPlate) t.
Proof.
  intros env fb Hfb t. subst t. unfold loop.
  rewrite (loop_run_recognized _ _ _ env fb Hfb); [|reflexivity].
  split; [reflexivity|]. split.
  - cbn. tauto.
  - cbn. intros H.
    repeat (destruct H as [H|H]; [discriminate H|]). exact H.
Qed.

Lemma placeholder_loop_reports_ABC1234_witness :
  calls (run (loop example_env)) = [Detection; PolygonModel; Ocr].
Proof.
  exact (proj1 (placeholder_loop_reports_ABC1234 example_env small_frame eq_refl)).
Defined.

(** X15.  The frame is used before it is given back: in an iteration
    that gets a frame, the return of the frame is followed by the final
    delay only, of two or three seconds, and every stage call comes
    before it. *)
Theorem frame_returned_last :
  forall stage1 stage2 stage3 env fb,
    fb_get env = Some fb ->
    exists before d,
      run (loop_with stage1 stage2 stage3 env) = before ++ [FbReturn fb; Delay d] /\
      fb_returns before = [] /\
      (d = 2000 \/ d = 3000).
Proof.
  intros stage1 stage2 stage3 env fb Hfb.
  destruct (below_threshold (confidence (snd (stage1 fb)))) eqn:Hc.
  - rewrite (loop_run_not_found stage1 stage2 stage3 env fb Hfb Hc).
    eexists [_; _; _; _; _], 2000. split; [reflexivity|]. split; [reflexivity|].
    left. reflexivity.
  - rewrite (loop_run_recognized stage1 stage2 stage3 env fb Hfb Hc).
    eexists [_; _; _; _; _; _; _; _; _; _; _; _; _; _; _; _], 3000.
    split; [reflexivity|]. split; [reflexivity|]. right. reflexivity.
Qed.

Lemma frame_returned_last_witness :
  exists before d,
    run (loop example_env) = before ++ [FbReturn small_frame; Delay d] /\
    fb_returns before = [] /\
    (d = 2000 \/ d = 3000).
Proof.
  apply (frame_returned_last detectPlate detectPolygon recognizeCharacters example_env).
  reflexivity.
Defined.




(** ** The initialisation: further properties *)

(** The five answers that decide a run of [setup]. *)
Ltac setup_cases env v :=
  unfold run, setup;
  destruct (camera_init_result env =? ESP_OK) eqn:Ecam;
  [destruct (model_version env Detection =? v) eqn:Ever;
   [destruct (allocate_ok env Detection) eqn:Edet;
    [destruct (allocate_ok env PolygonModel) eqn:Epol;
     [destruct (allocate_ok env Ocr) eqn:Eocr|]|]|]|];
  cbn.

(** An event that is none of the listed ones is not in the run. *)
Ltac not_in_run H :=
  repeat (destruct H as [H|H]; [discriminate H|]); destruct H.

(** X17.  [setup] announces that all models are ready exactly when the
    camera initialises, the detection asset has the supported schema
    version and the three tensor allocations succeed; the versions of the
    polygon and OCR assets play no part. *)
Theorem setup_ready_iff :
  forall TFLITE_SCHEMA_VERSION env,
    In (SerialPrint MsgAllModelsReady) (run (setup TFLITE_SCHEMA_VERSION env)) <->
    camera_init_result env = ESP_OK /\
    model_version env Detection = TFLITE_SCHEMA_VERSION /\
    allocate_ok env Detection = true /\
    allocate_ok env PolygonModel = true /\
    allocate_ok env Ocr = true.
Proof.
  intros v env. setup_cases env v; split.
  all: try solve [intros H; not_in_run H].
  all: try solve [intros [H1 [H2 [H3 [H4 H5]]]]; try discriminate;
                  try (apply Z.eqb_neq in Ecam; contradiction);
                  apply Z.eqb_neq in Ever; contradiction].
  - intros _. apply Z.eqb_eq in Ecam, Ever. repeat split; assumption.
  - intros _. tauto.
Qed.

(** X18.  [setup] stops at the first failure: either it reports no
    failure and its last message is that all models are ready, or it
    reports exactly one failure and that report is the last thing it
    does. *)
Theorem setup_stops_at_first_failure :
  forall TFLITE_SCHEMA_VERSION env,
    let t := run (setup TFLITE_SCHEMA_VERSION env) in
    (failures t = [] /\ last t (Delay 0) = SerialPrint MsgAllModelsReady) \/
    (exists f, failures t = [f] /\ last t (Delay 0) = SerialPrint f).
Proof.
  intros v env. cbv zeta. setup_cases env v.
  all: try solve [left; split; reflexivity].
  all: right; eexists; split; reflexivity.
Qed.

(** Splits a run at an event and the one that follows it, none of the
    events before being the second. *)
Ltac split_run fuel k :=
  lazymatch fuel with
  | O => fail "no such pair of events"
  | S ?fuel' =>
      lazymatch goal with
      | |- exists before after, ?t = _ /\ _ =>
          first [ exists (firstn k t), (skipn (S (S k)) t);
                  split;
                  [reflexivity
                  |cbn; let Hin := fresh in intros Hin; not_in_run Hin]
                | split_run fuel' (S k) ]
      end
  end.

(** X19.  Tensors are bound only after their allocation succeeded: if a
    run of [setup] reads the input and output tensors of a model, then
    the call of [AllocateTensors] for that model comes right before in
    the run, with no earlier read of these tensors, its answer was
    [kTfLiteOk], and the camera and the schema check of the detection
    asset had passed. *)
Theorem setup_binds_after_allocation :
  forall TFLITE_SCHEMA_VERSION env m,
    In (BindTensors m) (run (setup TFLITE_SCHEMA_VERSION env)) ->
    allocate_ok env m = true /\
    camera_init_result env = ESP_OK /\
    model_version env Detection = TFLITE_SCHEMA_VERSION /\
    exists before after,
      run (setup TFLITE_SCHEMA_VERSION env)
      = before ++ AllocateTensors m :: BindTensors m :: after /\
      ~ In (BindTensors m) before.
Proof.
  intros v env m. setup_cases env v; intros H.
  all: try solve [not_in_run H].
  all: apply Z.eqb_eq in Ecam, Ever.
  all: repeat (destruct H as [H|H]; [try discriminate H|]).
  all: try contradiction.
  all: injection H as <-.
  all: split; [assumption|]; split; [assumption|]; split; [assumption|].
  all: split_run 30%nat 0%nat.
Qed.

Lemma setup_binds_after_allocation_witness :
  exists before after,
    run (setup 3 (versions_env 3 2 2))
    = before ++ AllocateTensors Ocr :: BindTensors Ocr :: after /\
    ~ In (BindTensors Ocr) before.
Proof.
  destruct (setup_binds_after_allocation 3 (versions_env 3 2 2) Ocr) as [_ [_ [_ H]]].
  - cbn. tauto.
  - exact H.
Defined.

(** X20.  When the camera does not initialise, [setup] reports the error
    code and returns: it fetches no model asset and allocates nothing. *)
Theorem setup_camera_failure :
  forall TFLITE_SCHEMA_VERSION env,
    camera_init_result env <> ESP_OK ->
    let t := run (setup TFLITE_SCHEMA_VERSION env) in
    fetched t = [] /\
    failures t = [MsgCameraInitFailed (camera_init_result env)] /\
    forall m, ~ In (AllocateTensors m) t.
Proof.
  intros v env Hcam. cbv zeta. unfold run, setup.
  apply Z.eqb_neq in Hcam. rewrite Hcam. cbn.
  split; [reflexivity|]. split; [reflexivity|].
  intros m H. not_in_run H.
Qed.

Lemma setup_camera_failure_witness :
  fetched (run (setup 3 camera_failure_env)) = [] /\
  failures (run (setup 3 camera_failure_env)) = [MsgCameraInitFailed (-1)].
Proof.
  destruct (setup_camera_failure 3 camera_failure_env) as [H1 [H2 _]].
  - discriminate.
  - split; [exact H1|exact H2].
Defined.

(** ** The decoder: merge, then drop *)

Lemma collapse_merge (ls : list Z) :
  Forall (fun l => 0 <= l) ls ->
  forall result prev_class,
    exists prev_class',
      collapse ls (result, prev_class)
      = Some ((result ++
               string_of_list_ascii
                 (map character_of
                    (filter has_character (merge_repeats prev_class ls))))%string,
              prev_class').
Proof.
  induction 1 as [|l ls Hl _ IH]; intros result prev_class.
  - exists prev_class. cbn. rewrite append_empty. reflexivity.
  - cbn [collapse merge_repeats ctc_step].
    destruct (l =? prev_class) eqn:Ep.
    + rewrite andb_false_r. cbn [obind]. apply IH.
    + cbn [filter andb negb].
      destruct (has_character l) eqn:Eh; unfold has_character in Eh.
      * apply andb_prop in Eh. destruct Eh as [E0 E1].
        apply negb_true_iff in E0. rewrite E0, E1.
        assert (exists ch, CHARACTERS_at (l - 1) = Some ch) as [ch Hch].
        { unfold CHARACTERS_at, NUM_CHARACTERS in *.
          change (Z.of_nat (String.length CHARACTERS)) with 36.
          destruct (l - 1 <? 0) eqn:E2; [lia|].
          destruct (l - 1 =? 36) eqn:E3; [lia|].
          apply get_defined. change (String.length CHARACTERS) with 36%nat. lia. }
        assert (character_of l = ch) as Hco.
        { unfold character_of. rewrite Hch. reflexivity. }
        rewrite Hch. cbn [negb andb obind map string_of_list_ascii]. rewrite Hco.
        destruct (IH (result ++ String ch EmptyString)%string l) as [prev' ->].
        exists prev'. rewrite append_snoc. reflexivity.
      * destruct (l =? 0); cbn [negb andb obind]; [apply IH|].
        cbn [negb andb] in Eh. rewrite Eh. cbn [obind]. apply IH.
Qed.

(** X21.  The loop of the decoder computes the usual greedy CTC reading
    of the argmax labels: merge the adjacent repeats, drop the blanks and
    the classes beyond the table, and look the remaining classes up in
    [CHARACTERS]. *)
Theorem decode_is_merge_then_drop :
  forall predictions num_classes ls,
    has_labels predictions num_classes ls ->
    ctcBeamSearchDecode predictions (Z.of_nat (List.length ls)) num_classes
    = Some (merge_then_drop ls).
Proof.
  intros predictions num_classes ls H.
  rewrite (decode_of_labels _ _ _ H).
  destruct (collapse_merge ls (labels_nonneg _ _ _ _ H) EmptyString (-1)) as [prev' ->].
  reflexivity.
Qed.

Lemma decode_is_merge_then_drop_witness :
  ctcBeamSearchDecode (grid_of 40 [11; 11; 0; 11; 38; 38; 12; 0]) 8 40
  = Some "AAB"%string.
Proof.
  apply (decode_is_merge_then_drop (grid_of 40 [11; 11; 0; 11; 38; 38; 12; 0]) 40
           [11; 11; 0; 11; 38; 38; 12; 0]).
  vm_compute. reflexivity.
Defined.

(** ** The main loop: the edge of the gate *)

(** X22.  The gate is a strict comparison of IEEE floats: a confidence of
    exactly 0.5 and a confidence that is a NaN are not rejected, and the
    iteration goes through the three stages. *)
Theorem gate_passes_half_and_nan :
  forall stage1 stage2 stage3 env fb,
    fb_get env = Some fb ->
    confidence (snd (stage1 fb)) = confidence_0_5 \/
    confidence (snd (stage1 fb)) = S754_nan ->
    calls (run (loop_with stage1 stage2 stage3 env)) = [Detection; PolygonModel; Ocr].
Proof.
  intros stage1 stage2 stage3 env fb Hfb Hc.
  rewrite (loop_run_recognized stage1 stage2 stage3 env fb Hfb); [reflexivity|].
  destruct Hc as [-> | ->]; reflexivity.
Qed.

Lemma gate_passes_half_and_nan_witness :
  calls (run (loop_with (detector S754_nan) detectPolygon recognizeCharacters example_env))
  = [Detection; PolygonModel; Ocr].
Proof.
  apply (gate_passes_half_and_nan (detector S754_nan) detectPolygon recognizeCharacters
           example_env small_frame).
  - reflexivity.
  - right. reflexivity.
Defined.

(** * The decoder: the alphabet table and the ties *)

(** ** The decoder over any table *)

Lemma ctc_step_with_globals (st : string * Z) (max_class : Z) :
  ctc_step_with CHARACTERS NUM_CHARACTERS st max_class = ctc_step st max_class.
Proof. destruct st. reflexivity. Qed.

(** With the two globals at their values, the decoder over any table is
    the decoder of the sketch. *)
Lemma ctcBeamSearchDecode_with_globals (predictions : list float) (seq_len num_classes : Z) :
  ctcBeamSearchDecode_with CHARACTERS NUM_CHARACTERS predictions seq_len num_classes
  = ctcBeamSearchDecode predictions seq_len num_classes.
Proof.
  unfold ctcBeamSearchDecode_with, ctcBeamSearchDecode. f_equal.
  generalize (EmptyString, -1) as st. generalize (range 0 seq_len) as steps.
  induction steps as [|i steps IH]; intros st; cbn [decode_loop_with decode_loop].
  - reflexivity.
  - destruct (argmax_row predictions num_classes i) as [m|]; [|reflexivity].
    cbn [obind]. rewrite ctc_step_with_globals.
    destruct (ctc_step st m) as [st'|]; [|reflexivity]. cbn [obind]. apply IH.
Qed.

Lemma decode_loop_with_labels (table : string) (num_characters : Z)
    (predictions : list float) (num_classes : Z) (steps : list Z) :
  forall ls st,
    labels_of predictions num_classes steps = Some ls ->
    decode_loop_with table num_characters predictions num_classes steps st
    = collapse_with table num_characters ls st.
Proof.
  induction steps as [|i steps IH]; intros ls st H; cbn [labels_of] in H.
  - injection H as <-. reflexivity.
  - cbn [decode_loop_with].
    destruct (argmax_row predictions num_classes i) as [l|]; [|discriminate].
    cbn [obind] in *.
    destruct (labels_of predictions num_classes steps) as [ls'|]; [|discriminate].
    injection H as <-. cbn [collapse_with obind].
    destruct (ctc_step_with table num_characters st l) as [st'|]; [|reflexivity].
    cbn [obind]. apply IH. reflexivity.
Qed.

Lemma decode_with_of_labels (table : string) (num_characters : Z)
    (predictions : list float) (num_classes : Z) (ls : list Z) :
  has_labels predictions num_classes ls ->
  ctcBeamSearchDecode_with table num_characters predictions
    (Z.of_nat (List.length ls)) num_classes
  = option_map fst (collapse_with table num_characters ls (EmptyString, -1)).
Proof.
  intros H. unfold ctcBeamSearchDecode_with.
  rewrite (decode_loop_with_labels _ _ _ _ _ _ _ H).
  destruct (collapse_with table num_characters ls (EmptyString, -1)); reflexivity.
Qed.

Lemma step_with_blank (table : string) (num_characters : Z) (result : string) (prev_class : Z) :
  ctc_step_with table num_characters (result, prev_class) 0 = Some (result, 0).
Proof. reflexivity. Qed.

Lemma step_with_repeat (table : string) (num_characters : Z) (result : string) (c : Z) :
  ctc_step_with table num_characters (result, c) c = Some (result, c).
Proof. unfold ctc_step_with. rewrite Z.eqb_refl, andb_false_r. reflexivity. Qed.

Lemma step_with_emit (table : string) (num_characters : Z) (result : string)
    (prev_class c : Z) (ch : ascii) :
  c <> 0 -> c <> prev_class -> c - 1 < num_characters ->
  table_at table (c - 1) = Some ch ->
  ctc_step_with table num_characters (result, prev_class) c
  = Some ((result ++ String ch EmptyString)%string, c).
Proof.
  intros H0 Hp Hn Hch. unfold ctc_step_with.
  assert ((c =? 0) = false) as -> by lia.
  assert ((c =? prev_class) = false) as -> by lia.
  assert ((c - 1 <? num_characters) = true) as -> by lia.
  cbn [negb andb]. rewrite Hch. reflexivity.
Qed.

Lemma table_at_first (a : ascii) (rest : string) :
  table_at (String a rest) 0 = Some a.
Proof.
  unfold table_at.
  change (String.length (String a rest)) with (S (String.length rest)).
  rewrite Nat2Z.inj_succ.
  destruct (0 =? Z.succ (Z.of_nat (String.length rest))) eqn:E;
    [apply Z.eqb_eq in E; lia|].
  reflexivity.
Qed.

Lemma table_at_second (a b : ascii) (rest : string) :
  table_at (String a (String b rest)) 1 = Some b.
Proof.
  unfold table_at.
  change (String.length (String a (String b rest))) with (S (S (String.length rest))).
  rewrite !Nat2Z.inj_succ.
  destruct (1 =? Z.succ (Z.succ (Z.of_nat (String.length rest)))) eqn:E;
    [apply Z.eqb_eq in E; lia|].
  reflexivity.
Qed.

Lemma collapse_with_blank (table : string) (num_characters : Z) (ls : list Z) :
  Forall (fun l => l = 0) ls ->
  forall result prev_class,
    exists prev_class',
      collapse_with table num_characters ls (result, prev_class)
      = Some (result, prev_class').
Proof.
  induction 1 as [|l ls -> _ IH]; intros result prev_class.
  - exists prev_class. reflexivity.
  - cbn [collapse_with]. rewrite step_with_blank. cbn [obind]. apply IH.
Qed.

(** The steps of the decoder over a table that starts with "AB". *)
Ltac step_over_AB :=
  cbn [collapse_with];
  repeat (first
    [ rewrite step_with_blank
    | rewrite step_with_repeat
    | rewrite (step_with_emit _ _ _ _ 1 "A") by (try lia; apply table_at_first)
    | rewrite (step_with_emit _ _ _ _ 2 "B") by (try lia; apply table_at_second) ];
    cbn [obind]);
  reflexivity.

(** C2.  The body of [ctcBeamSearchDecode] is the greedy collapse: over
    every alphabet table that starts with "AB" (class 1 is A, class 2 is
    B; at least these two entries in use), it returns "AB" for every grid
    whose argmax labels are [0,1,1,0,2,2,0] and "A" for every grid whose
    argmax labels are [1,1,1]; and for every grid whose argmax is the
    blank at every timestep it returns the empty string, over any such
    table and over the table of the sketch alike. *)
Theorem decode_over_AB_table :
  forall rest num_characters predictions num_classes ls,
    2 <= num_characters ->
    has_labels predictions num_classes ls ->
    let table := String "A" (String "B" rest) in
    let decoded :=
      ctcBeamSearchDecode_with table num_characters predictions
        (Z.of_nat (List.length ls)) num_classes in
    (ls = [0; 1; 1; 0; 2; 2; 0] -> decoded = Some "AB"%string) /\
    (ls = [1; 1; 1] -> decoded = Some "A"%string) /\
    (Forall (fun l => l = 0) ls ->
     decoded = Some EmptyString /\
     ctcBeamSearchDecode predictions (Z.of_nat (List.length ls)) num_classes
     = Some EmptyString).
Proof.
  intros rest num_characters predictions num_classes ls Hn H table decoded.
  subst decoded. rewrite (decode_with_of_labels _ _ _ _ _ H). subst table.
  split; [|split].
  - intros ->. step_over_AB.
  - intros ->. step_over_AB.
  - intros Hblank. split.
    + destruct (collapse_with_blank (String "A" (String "B" rest)) num_characters
                  ls Hblank EmptyString (-1)) as [prev' ->].
      reflexivity.
    + rewrite (decode_of_labels _ _ _ H).
      destruct (collapse_blank ls Hblank EmptyString (-1)) as [prev' ->].
      reflexivity.
Qed.

Lemma decode_over_AB_table_witness :
  ctcBeamSearchDecode_with letters_first 36 (grid_of 37 [0; 1; 1; 0; 2; 2; 0]) 7 37
  = Some "AB"%string.
Proof.
  refine (proj1 (decode_over_AB_table "CDEFGHIJKLMNOPQRSTUVWXYZ0123456789" 36
                   (grid_of 37 [0; 1; 1; 0; 2; 2; 0]) 37 [0; 1; 1; 0; 2; 2; 0] _ _) eq_refl).
  - lia.
  - vm_compute. reflexivity.
Defined.

(** C7.  A blank between two emissions of the same class prevents the
    collapse: over every alphabet table that starts with "AB", the body
    of [ctcBeamSearchDecode] returns "AA", two characters, for every grid
    whose argmax labels are [1,0,1]. *)
Theorem blank_separates_over_AB_table :
  forall rest num_characters predictions num_classes,
    2 <= num_characters ->
    has_labels predictions num_classes [1; 0; 1] ->
    ctcBeamSearchDecode_with (String "A" (String "B" rest)) num_characters
      predictions 3 num_classes
    = Some "AA"%string.
Proof.
  intros rest num_characters predictions num_classes Hn H.
  rewrite (decode_with_of_labels _ _ _ _ _ H). step_over_AB.
Qed.

Lemma blank_separates_over_AB_table_witness :
  ctcBeamSearchDecode_with letters_first 36 (grid_of 37 [1; 0; 1]) 3 37
  = Some "AA"%string.
Proof.
  apply (blank_separates_over_AB_table "CDEFGHIJKLMNOPQRSTUVWXYZ0123456789" 36
           (grid_of 37 [1; 0; 1]) 37).
  - lia.
  - vm_compute. reflexivity.
Defined.

(** ** The decoder and the first maximum of each row *)

Lemma argmax_row_first_maximum (predictions : list float) (num_classes i m : Z) :
  argmax_row predictions num_classes i = Some m ->
  first_maximum predictions num_classes i m.
Proof.
  intros H.
  destruct (argmax_row_post _ _ _ _ H) as [Hs [pm [Hpm [Hmax Hfirst]]]].
  split; [exact Hs|]. exists pm. split; [exact Hpm|]. split; [exact Hmax|].
  intros c pc Hc Hr Heq.
  destruct (Z.lt_ge_cases c m) as [Hlt|Hge]; [|exact Hge].
  rewrite (Hfirst c pc Hc Hlt Hr) in Heq. discriminate.
Qed.

Lemma SFeqb_of_not_ltb (a b : float) :
  Float32.is_nan a = false -> Float32.is_nan b = false ->
  SFltb a b = false -> SFltb b a = false -> SFeqb a b = true.
Proof.
  intros Ha Hb Hab Hba.
  pose proof (SFleb_of_not_ltb a b Ha Hb Hba) as Hle.
  destruct (SFeqb a b) eqn:E; [reflexivity|].
  rewrite (SFltb_of_leb_neq a b Hle E) in Hab. discriminate.
Qed.

(** Without a NaN a row has one first maximum only. *)
Lemma first_maximum_unique (predictions : list float) (num_classes i m m' : Z) :
  (forall c pc, scanned num_classes c -> prob predictions i num_classes c = Some pc ->
     Float32.is_nan pc = false) ->
  first_maximum predictions num_classes i m ->
  first_maximum predictions num_classes i m' ->
  m = m'.
Proof.
  intros Hnan [Hs [pm [Hpm [Hmax Hfirst]]]] [Hs' [pm' [Hpm' [Hmax' Hfirst']]]].
  pose proof (Hnan m pm Hs Hpm) as Hn.
  pose proof (Hnan m' pm' Hs' Hpm') as Hn'.
  pose proof (Hmax m' pm' Hs' Hpm') as H1.
  pose proof (Hmax' m pm Hs Hpm) as H2.
  unfold Float32.gt in H1, H2.
  pose proof (Hfirst m' pm' Hs' Hpm' (SFeqb_of_not_ltb pm' pm Hn' Hn H2 H1)).
  pose proof (Hfirst' m pm Hs Hpm (SFeqb_of_not_ltb pm pm' Hn Hn' H1 H2)).
  lia.
Qed.

Lemma argmax_scan_ext (predictions predictions' : list float) (i num_classes : Z)
    (cs : list Z) :
  (forall c, In c cs ->
     read predictions' (i * num_classes + c) = read predictions (i * num_classes + c)) ->
  forall m0 p0,
    argmax_scan predictions' i num_classes cs m0 p0
    = argmax_scan predictions i num_classes cs m0 p0.
Proof.
  induction cs as [|c cs IH]; intros H m0 p0; cbn [argmax_scan]; [reflexivity|].
  rewrite (H c (or_introl eq_refl)).
  destruct (read predictions (i * num_classes + c)) as [pc|]; [|reflexivity].
  cbn [obind].
  destruct (Float32.gt pc p0); apply IH; intros c' Hc'; apply H; right; exact Hc'.
Qed.

(** The argmax of a row depends on the cells of that row only. *)
Lemma argmax_row_ext (predictions predictions' : list float) (seq_len num_classes i : Z) :
  1 <= num_classes -> 0 <= i < seq_len ->
  same_cells (seq_len * num_classes) predictions predictions' ->
  argmax_row predictions' num_classes i = argmax_row predictions num_classes i.
Proof.
  intros Hn Hi Hsame. unfold argmax_row.
  rewrite (Hsame (i * num_classes)) by nia.
  destruct (read predictions (i * num_classes)) as [p0|]; [|reflexivity].
  cbn [obind]. rewrite (argmax_scan_ext predictions predictions'); [reflexivity|].
  intros c Hc. apply In_range in Hc. apply Hsame. nia.
Qed.

Lemma labels_of_ext (predictions predictions' : list float) (seq_len num_classes : Z)
    (steps : list Z) :
  1 <= num_classes ->
  (forall i, In i steps -> 0 <= i < seq_len) ->
  same_cells (seq_len * num_classes) predictions predictions' ->
  labels_of predictions' num_classes steps = labels_of predictions num_classes steps.
Proof.
  intros Hn Hsteps Hsame. induction steps as [|i steps IH]; cbn [labels_of]; [reflexivity|].
  rewrite (argmax_row_ext predictions predictions' seq_len num_classes i Hn
             (Hsteps i (or_introl eq_refl)) Hsame).
  rewrite IH; [reflexivity|]. intros i' Hi'. apply Hsteps. right. exact Hi'.
Qed.

Lemma labels_of_defined (predictions : list float) (num_classes : Z) (steps : list Z) :
  1 <= num_classes ->
  (forall i, In i steps ->
     0 <= i /\ (i + 1) * num_classes <= Z.of_nat (List.length predictions)) ->
  exists ls, labels_of predictions num_classes steps = Some ls.
Proof.
  intros Hn. induction steps as [|i steps IH]; intros Hs; cbn [labels_of].
  - exists []. reflexivity.
  - destruct (Hs i (or_introl eq_refl)) as [Hi Hlen].
    destruct (argmax_row_defined predictions num_classes i Hi Hn Hlen) as [m [-> _]].
    destruct IH as [ls ->]; [intros i' Hi'; apply Hs; right; exact Hi'|].
    exists (m :: ls). reflexivity.
Qed.

(** The labels of a grid, one by one. *)
Lemma labels_of_nth (predictions : list float) (num_classes : Z) (steps : list Z) :
  forall ls,
    labels_of predictions num_classes steps = Some ls ->
    List.length ls = List.length steps /\
    forall k, (k < List.length steps)%nat ->
      argmax_row predictions num_classes (nth k steps 0) = Some (nth k ls 0).
Proof.
  induction steps as [|i steps IH]; intros ls H; cbn [labels_of] in H.
  - injection H as <-. split; [reflexivity|]. intros k Hk. cbn in Hk. lia.
  - destruct (argmax_row predictions num_classes i) as [m|] eqn:Hm; [|discriminate].
    cbn [obind] in H.
    destruct (labels_of predictions num_classes steps) as [ls'|]; [|discriminate].
    injection H as <-. destruct (IH ls' eq_refl) as [Hl Hnth].
    split; [cbn; lia|].
    intros [|k] Hk; cbn [nth]; [exact Hm|]. apply Hnth. cbn in Hk. lia.
Qed.

Lemma nth_range (lo hi : Z) (k : nat) :
  (k < Z.to_nat (hi - lo))%nat -> nth k (range lo hi) 0 = lo + Z.of_nat k.
Proof.
  intros Hk. unfold range.
  pose proof (map_nth (fun j => lo + Z.of_nat j)
                (seq 0 (Z.to_nat (hi - lo))) 0%nat k) as E.
  cbv beta in E.
  rewrite (nth_indep _ 0 (lo + Z.of_nat 0))
    by (rewrite length_map, length_seq; exact Hk).
  rewrite E, seq_nth by exact Hk. reflexivity.
Qed.

(** C10.  The string that [ctcBeamSearchDecode] returns is a function of
    the cells of its grid, through the smallest-index maximum of each
    row.  On every grid of [seq_len] rows there is a list of classes, one
    per timestep, each the first maximum of its row (no class of the row
    has a greater probability, and the classes that tie with it have a
    larger index), of which the returned string is the merge-then-drop
    reading; every grid with the same cells returns the same string; and
    when no cell is a NaN the first maxima of the rows are unique, so
    the string is determined by them. *)
Theorem decode_by_first_maxima :
  forall predictions seq_len num_classes,
    0 <= seq_len -> 1 <= num_classes ->
    seq_len * num_classes <= Z.of_nat (List.length predictions) ->
    exists ls,
      Z.of_nat (List.length ls) = seq_len /\
      (forall i, 0 <= i < seq_len ->
         first_maximum predictions num_classes i (nth (Z.to_nat i) ls 0)) /\
      ctcBeamSearchDecode predictions seq_len num_classes = Some (merge_then_drop ls) /\
      (forall predictions',
         same_cells (seq_len * num_classes) predictions predictions' ->
         ctcBeamSearchDecode predictions' seq_len num_classes
         = Some (merge_then_drop ls)) /\
      (nan_free (seq_len * num_classes) predictions ->
       forall ls',
         Z.of_nat (List.length ls') = seq_len ->
         (forall i, 0 <= i < seq_len ->
            first_maximum predictions num_classes i (nth (Z.to_nat i) ls' 0)) ->
         ls' = ls).
Proof.
  intros predictions seq_len num_classes Hs Hn Hlen.
  destruct (labels_of_defined predictions num_classes (range 0 seq_len) Hn) as [ls Hls].
  { intros i Hi. apply In_range in Hi. split; [lia|nia]. }
  destruct (labels_of_nth _ _ _ _ Hls) as [Hl Hnth].
  rewrite range_length, Z.sub_0_r in Hl, Hnth.
  assert (forall i, 0 <= i < seq_len ->
            argmax_row predictions num_classes i = Some (nth (Z.to_nat i) ls 0)) as Hrow.
  { intros i Hi. specialize (Hnth (Z.to_nat i) ltac:(lia)).
    rewrite nth_range in Hnth by lia. rewrite Z.add_0_l, Z2Nat.id in Hnth by lia.
    exact Hnth. }
  assert (forall predictions',
            labels_of predictions' num_classes (range 0 seq_len) = Some ls ->
            ctcBeamSearchDecode predictions' seq_len num_classes
            = Some (merge_then_drop ls)) as Hdec.
  { intros predictions' Hls'.
    assert (has_labels predictions' num_classes ls) as Hhas.
    { unfold has_labels. rewrite Hl, Z2Nat.id by lia. exact Hls'. }
    pose proof (decode_of_labels _ _ _ Hhas) as Hd.
    rewrite Hl, Z2Nat.id in Hd by lia. rewrite Hd.
    destruct (collapse_merge ls (labels_nonneg _ _ _ _ Hls') EmptyString (-1))
      as [prev' ->].
    reflexivity. }
  exists ls. split; [lia|]. split; [|split; [|split]].
  - intros i Hi. apply argmax_row_first_maximum. exact (Hrow i Hi).
  - apply Hdec. exact Hls.
  - intros predictions' Hsame. apply Hdec. rewrite <- Hls.
    apply (labels_of_ext predictions predictions' seq_len); [exact Hn| |exact Hsame].
    intros i Hi. apply In_range in Hi. exact Hi.
  - intros Hnan ls' Hl' Hfirst'.
    apply (nth_ext ls' ls 0 0); [lia|].
    intros k Hk.
    specialize (Hfirst' (Z.of_nat k) ltac:(lia)). rewrite Nat2Z.id in Hfirst'.
    pose proof (Hrow (Z.of_nat k) ltac:(lia)) as Hk'. rewrite Nat2Z.id in Hk'.
    apply (first_maximum_unique predictions num_classes (Z.of_nat k)).
    + intros c pc Hc Hr. apply (Hnan (Z.of_nat k * num_classes + c)); [|exact Hr].
      destruct Hc as [->|Hc]; nia.
    + exact Hfirst'.
    + apply argmax_row_first_maximum. exact Hk'.
Qed.

Lemma decode_by_first_maxima_witness :
  ctcBeamSearchDecode tie_grid 2 3 = Some "0"%string.
Proof.
  destruct (decode_by_first_maxima tie_grid 2 3) as [ls [_ [_ [Hdec [_ Huniq]]]]];
    [lia|lia|cbn; lia|].
  rewrite Hdec. rewrite <- (Huniq) with (ls' := [1; 0]); [reflexivity| |reflexivity|].
  - intros idx v Hidx Hv.
    assert (idx = 0 \/ idx = 1 \/ idx = 2 \/ idx = 3 \/ idx = 4 \/ idx = 5) as Hc by lia.
    destruct Hc as [->|[->|[->|[->|[->| ->]]]]]; injection Hv as <-; reflexivity.
  - intros i Hi. apply argmax_row_first_maximum.
    assert (i = 0 \/ i = 1) as [->| ->] by lia; reflexivity.
Defined.
